(** * Voice-command monitor: a shallow embedding of [speech_monitor.py]

    The development follows the class [SpeechMonitor]:
    - [Py]: the Python string primitives the class relies on
      ([str.lower], [str.split], [str.join], [str.replace], [in]);
    - [Monitor]: the object state, the external environment and a small
      state-and-exception monad in which the methods are written;
    - one theorem per property of the detection-and-dispatch pipeline. *)

From Stdlib Require Import Ascii String.
From stdpp Require Import base strings list gmap.


(** ** Python strings

    A Python [str] is modelled as a [string] whose characters are the code
    points U+0000 to U+00FF (the 256 values of [ascii]); [isspace] and
    [lower_char] are Python's [str.isspace] and [str.lower] on that range. *)
Module Py.

Definition code (c : ascii) : nat := nat_of_ascii c.

(** [str.isspace] for one character: TAB, LF, VT, FF, CR, the four
    information separators, SPACE, NEL and NBSP. *)
Definition isspace (c : ascii) : bool :=
  let n := code c in
  ((9 <=? n) && (n <=? 13)) || ((28 <=? n) && (n <=? 32))
  || (n =? 133) || (n =? 160).

(** [str.lower] for one character: A-Z and the Latin-1 capitals
    (U+00C0 to U+00DE, without the multiplication sign U+00D7). *)
Definition lower_char (c : ascii) : ascii :=
  let n := code c in
  if ((65 <=? n) && (n <=? 90))
     || ((192 <=? n) && (n <=? 222) && negb (n =? 215))
  then ascii_of_nat (n + 32) else c.

Fixpoint lower (s : string) : string :=
  match s with
  | EmptyString => EmptyString
  | String c s' => String (lower_char c) (lower s')
  end.

(** [needle in hay]: some suffix of [hay] starts with [needle]. *)
Fixpoint str_in (needle hay : string) : bool :=
  String.prefix needle hay
  || match hay with
     | EmptyString => false
     | String _ hay' => str_in needle hay'
     end.

(** [s.split()] with no separator: the maximal runs of non-whitespace
    characters, in order; leading, trailing and repeated whitespace
    produce no empty token. *)
Fixpoint split (s : string) : list string :=
  match s with
  | EmptyString => []
  | String c s' =>
      if isspace c then split s'
      else match s' with
           | EmptyString => [String c EmptyString]
           | String c' _ =>
               if isspace c' then String c EmptyString :: split s'
               else match split s' with
                    | tok :: toks => String c tok :: toks
                    | [] => [String c EmptyString]
                    end
           end
  end.

(** [sep.join(ls)]. *)
Fixpoint join (sep : string) (ls : list string) : string :=
  match ls with
  | [] => EmptyString
  | [x] => x
  | x :: ls' => x +:+ sep +:+ join sep ls'
  end.

(** [s.replace(old, new)] for a non-empty [old]: scan left to right,
    replace each occurrence and resume after it ([skip] counts the
    characters of the occurrence still to be dropped). *)
Fixpoint replace_go (old new : string) (skip : nat) (s : string) : string :=
  match s with
  | EmptyString => EmptyString
  | String c s' =>
      match skip with
      | S k => replace_go old new k s'
      | O =>
          if String.prefix old s
          then new +:+ replace_go old new (String.length old - 1) s'
          else String c (replace_go old new 0 s')
      end
  end.

(** [s.replace(EmptyString, new)]: [new] before every character and at
    the end. *)
Fixpoint intersperse (new s : string) : string :=
  match s with
  | EmptyString => new
  | String c s' => new +:+ String c (intersperse new s')
  end.

(** Truth value of a [str]: the empty string is false. *)
Definition truthy (s : string) : bool :=
  match s with
  | EmptyString => false
  | String _ _ => true
  end.

Definition replace (old new s : string) : string :=
  match old with
  | EmptyString => intersperse new s
  | String _ _ => replace_go old new 0 s
  end.

(** No character of [s] is whitespace. *)
Fixpoint no_space (s : string) : bool :=
  match s with
  | EmptyString => true
  | String c s' => negb (isspace c) && no_space s'
  end.

(** A token: a non-empty string without whitespace. *)
Definition is_token (s : string) : bool := truthy s && no_space s.

End Py.


(** ** The monitor object, its environment and its methods *)
Module Monitor.

(** Exceptions, by the classes [monitor_speech] tells apart:
    [KeyboardInterrupt], the other classes outside [Exception]
    ([BaseException], e.g. [SystemExit]), [ValueError], and the other
    subclasses of [Exception]. The argument is [str(e)]. *)
Inductive exn : Type :=
| KeyboardInterrupt
| BaseException (msg : string)
| ValueError (msg : string)
| Exception (msg : string).

(** [isinstance(e, Exception)]. *)
Definition is_Exception (e : exn) : bool :=
  match e with
  | ValueError _ | Exception _ => true
  | KeyboardInterrupt | BaseException _ => false
  end.

Definition str_exn (e : exn) : string :=
  match e with
  | KeyboardInterrupt => EmptyString
  | BaseException msg | ValueError msg | Exception msg => msg
  end.

(** What the program does to the outside, in order: the calls on the
    recognizer and audio libraries, the registered callbacks it calls and
    the lines it prints. *)
Inductive event : Type :=
| EvModel                      (* Model(MODEL_PATH) returned *)
| EvRecognizer                 (* KaldiRecognizer(model, rate) returned *)
| EvPyAudio                    (* pyaudio.PyAudio() returned *)
| EvOpen                       (* mic.open(...) returned a stream *)
| EvRead                       (* stream.read(...) returned a chunk *)
| EvStopStream                 (* stream.stop_stream() *)
| EvClose                      (* stream.close() *)
| EvTerminate                  (* mic.terminate() *)
| EvCall (word : string)       (* the callback registered for [word] is called *)
| EvPrint (line : string).     (* print(line) *)

(** The object behind an [Optional[...]] attribute; only its presence
    matters to the class. *)
Inductive handle : Type := Handle.

(** How far [initialize_audio_stream] gets in this run. *)
Inductive init_behaviour : Type :=
| InitOk
| ModelFails (e : exn)
| RecognizerFails (e : exn)
| PyAudioFails (e : exn)
| OpenFails (e : exn).

(** What one turn of the loop gets from the recognizer:
    [AcceptWaveform] false, or true with the parsed [Result()], of which
    only the ["text"] entry (present or not) is used. *)
Inductive chunk : Type :=
| NoResult
| Final (text : option string).

Inductive outcome (A : Type) : Type :=
| Returned (a : A)
| Raised (e : exn).
Arguments Returned {A} a.
Arguments Raised {A} e.

(** A registered callback: called with no argument, it changes the
    world it is closed over and returns, or raises. *)
Abbreviation Action World := (World → World * option exn).

Section WithWorld.

(** The state the registered callbacks act on (the keyboard, the
    clock); callbacks do not touch the monitor object. *)
Context {World : Type}.

(** The attributes of a [SpeechMonitor]. [FORBIDDEN_WORDS] is a Python
    set: the list gives its elements in the order the [for] loops
    meet them. *)
Record Self : Type := mkSelf {
  MODEL_PATH : string;
  SAMPLE_RATE : N;
  BUFFER_SIZE : N;
  FORBIDDEN_WORDS : list string;
  detected_words : gset string;
  WARNING_TEXT : string;
  RESET_TEXT : string;
  audio_list : list string;
  recognizer : option handle;
  stream : option handle;
  mic : option handle;
  callbacks : gmap string (Action World)
}.

Record Env : Type := mkEnv {
  world : World;
  trace : list event
}.

Definition State : Type := Self * Env.

(** Computations over the object and the environment that return or
    raise; what was changed before a [raise] stays changed. *)
Definition M (A : Type) : Type := State → State * outcome A.

Definition ret {A} (a : A) : M A := λ st, (st, Returned a).
Definition raise {A} (e : exn) : M A := λ st, (st, Raised e).
Definition bind {A B} (m : M A) (f : A → M B) : M B :=
  λ st, match m st with
        | (st', Returned a) => f a st'
        | (st', Raised e) => (st', Raised e)
        end.

Definition get_self : M Self := λ st, (st, Returned (fst st)).
Definition modify_self (f : Self → Self) : M unit :=
  λ st, ((f (fst st), snd st), Returned tt).
Definition emit (ev : event) : M unit :=
  λ st, ((fst st, mkEnv (world (snd st)) (trace (snd st) ++ [ev])),
         Returned tt).
Definition print (line : string) : M unit := emit (EvPrint line).

(** [try: body except ...: handler]: [handlers e] is the body of the
    first [except] clause that matches [e], if any. *)
Definition try_except {A} (body : M A) (handlers : exn → option (M A))
  : M A :=
  λ st, match body st with
        | (st', Returned a) => (st', Returned a)
        | (st', Raised e) =>
            match handlers e with
            | Some h => h st'
            | None => (st', Raised e)
            end
        end.

(** [try: body finally: final]. *)
Definition try_finally {A} (body : M A) (final : M unit) : M A :=
  λ st, match body st with
        | (st', r) =>
            match final st' with
            | (st'', Returned _) => (st'', r)
            | (st'', Raised e) => (st'', Raised e)
            end
        end.

End WithWorld.

Arguments Self : clear implicits.
Arguments Env : clear implicits.
Arguments State : clear implicits.
Arguments M : clear implicits.

Declare Scope monitor_scope.
Delimit Scope monitor_scope with mon.
Notation "'let*' x ':=' m 'in' k" := (bind m (λ x, k))
  (at level 10, x name, m at level 100, k at level 200) : monitor_scope.
Notation "m ;; k" := (bind m (λ _, k))
  (at level 100, k at level 200, right associativity) : monitor_scope.
Local Open Scope monitor_scope.

Section Methods.

Context {World : Type}.
Abbreviation Self := (Self World).
Abbreviation M := (M World).

(** Truth value of an [Optional[...]] attribute or of the result of
    [dict.get]: [None] is false, an object is true. *)
Definition is_some {A} (o : option A) : bool :=
  match o with Some _ => true | None => false end.

Definition set_detected_words (dw : gset string) (s : Self) : Self :=
  mkSelf (MODEL_PATH s) (SAMPLE_RATE s) (BUFFER_SIZE s)
         (FORBIDDEN_WORDS s) dw (WARNING_TEXT s) (RESET_TEXT s)
         (audio_list s) (recognizer s) (stream s) (mic s) (callbacks s).

Definition set_audio_list (al : list string) (s : Self) : Self :=
  mkSelf (MODEL_PATH s) (SAMPLE_RATE s) (BUFFER_SIZE s)
         (FORBIDDEN_WORDS s) (detected_words s) (WARNING_TEXT s)
         (RESET_TEXT s) al (recognizer s) (stream s) (mic s)
         (callbacks s).

Definition set_recognizer (h : option handle) (s : Self) : Self :=
  mkSelf (MODEL_PATH s) (SAMPLE_RATE s) (BUFFER_SIZE s)
         (FORBIDDEN_WORDS s) (detected_words s) (WARNING_TEXT s)
         (RESET_TEXT s) (audio_list s) h (stream s) (mic s)
         (callbacks s).

Definition set_stream (h : option handle) (s : Self) : Self :=
  mkSelf (MODEL_PATH s) (SAMPLE_RATE s) (BUFFER_SIZE s)
         (FORBIDDEN_WORDS s) (detected_words s) (WARNING_TEXT s)
         (RESET_TEXT s) (audio_list s) (recognizer s) h (mic s)
         (callbacks s).

Definition set_mic (h : option handle) (s : Self) : Self :=
  mkSelf (MODEL_PATH s) (SAMPLE_RATE s) (BUFFER_SIZE s)
         (FORBIDDEN_WORDS s) (detected_words s) (WARNING_TEXT s)
         (RESET_TEXT s) (audio_list s) (recognizer s) (stream s) h
         (callbacks s).

Definition set_callbacks (cb : gmap string (Action World)) (s : Self)
  : Self :=
  mkSelf (MODEL_PATH s) (SAMPLE_RATE s) (BUFFER_SIZE s)
         (FORBIDDEN_WORDS s) (detected_words s) (WARNING_TEXT s)
         (RESET_TEXT s) (audio_list s) (recognizer s) (stream s)
         (mic s) cb.

(** [SpeechMonitor.__init__]. *)
Definition SpeechMonitor (model_path : string)
    (forbidden_words : list string) (sample_rate buffer_size : N)
    (warning_text reset_text : string) : Self :=
  mkSelf model_path sample_rate buffer_size forbidden_words ∅
         warning_text reset_text [] None None None ∅.

(** Run a callback on the world. *)
Definition call (word : string) (callback : Action World) : M unit :=
  emit (EvCall word) ;;
  λ st, let '(w', r) := callback (world (snd st)) in
        ((fst st, mkEnv w' (trace (snd st))),
         match r with
         | None => Returned tt
         | Some e => Raised e
         end).

Definition initialize_audio_stream (ib : init_behaviour) : M unit :=
  try_except
    ((match ib with ModelFails e => raise e | _ => emit EvModel end) ;;
     (match ib with
      | RecognizerFails e => raise e
      | _ => emit EvRecognizer
      end) ;;
     modify_self (set_recognizer (Some Handle)) ;;
     (match ib with PyAudioFails e => raise e | _ => emit EvPyAudio end) ;;
     modify_self (set_mic (Some Handle)) ;;
     (match ib with OpenFails e => raise e | _ => emit EvOpen end) ;;
     modify_self (set_stream (Some Handle)))
    (λ e, if is_Exception e
          then Some (print ("Initialization failed: " +:+ str_exn e) ;;
                     raise e)
          else None).

Definition register_callback (word : string)
    (callback : Action World) : M unit :=
  modify_self (λ s, set_callbacks (<[word := callback]> (callbacks s)) s).

Definition _execute_callbacks (word : string) : M unit :=
  let* self := get_self in
  match callbacks self !! word with
  | Some callback => call word callback
  | None => ret tt
  end.

(** The test of the first [if] of the detection loop,
    [" " + word + " " in " " + current_line + " " and word and
     mode == "full" not in self.detected_words]: [in], [==] and
    [not in] are comparisons of one chain, so the last operand is
    [mode == "full" and "full" not in self.detected_words]. *)
Definition full_test (word current_line mode : string)
    (dw : gset string) : bool :=
  Py.str_in (" " +:+ word +:+ " ") (" " +:+ current_line +:+ " ")
  && Py.truthy word
  && ((mode =? "full")%string && negb (bool_decide ("full" ∈ dw))).

(** The test of the second [if],
    [word in current_line and word and
     mode == "partial" not in self.detected_words]. *)
Definition partial_test (word current_line mode : string)
    (dw : gset string) : bool :=
  Py.str_in word current_line
  && Py.truthy word
  && ((mode =? "partial")%string
      && negb (bool_decide ("partial" ∈ dw))).

(** The body of the [for word in self.FORBIDDEN_WORDS] loop of
    [_process_partial_result_and_full_result]: the two [if]
    statements. The local set [new_detections] is threaded through;
    [self.detected_words] is read again at each test. *)
Definition detection_body (current_line mode word : string)
    (new_detections : gset string) : M (gset string) :=
  let* self := get_self in
  let* nd1 :=
    (if full_test word current_line mode (detected_words self)
     then let new_detections := new_detections ∪ {[word]} in
          _execute_callbacks word ;; ret new_detections
     else ret new_detections) in
  let* self := get_self in
  if partial_test word current_line mode (detected_words self)
  then let nd2 := nd1 ∪ {[word]} in _execute_callbacks word ;; ret nd2
  else ret nd1.

Fixpoint detection_loop (current_line mode : string)
    (words : list string) (new_detections : gset string)
  : M (gset string) :=
  match words with
  | [] => ret new_detections
  | word :: rest =>
      let* nd := detection_body current_line mode word new_detections in
      detection_loop current_line mode rest nd
  end.

Definition _process_partial_result_and_full_result
    (text mode : string) : M string :=
  let current_line := Py.lower text in
  modify_self (set_detected_words ∅) ;;
  let* self := get_self in
  let* new_detections :=
    detection_loop current_line mode (FORBIDDEN_WORDS self) ∅ in
  (if bool_decide (new_detections = ∅) then ret tt
   else modify_self
          (λ s, set_detected_words (detected_words s ∪ new_detections) s))
  ;;
  ret current_line.

(** The inner [for forbidden in self.FORBIDDEN_WORDS] loop of [_info]
    for one token: [Some w] when [words[i] = w] is executed (followed
    by [break]), [None] when the loop ends without assigning. *)
Fixpoint highlight (self : Self) (mode : string)
    (forbiddens : list string) (word lower_word : string)
  : option string :=
  match forbiddens with
  | [] => None
  | forbidden :: rest =>
      if Py.str_in forbidden lower_word then
        if (lower_word =? Py.lower forbidden)%string
           && (mode =? "full")%string
        then Some (WARNING_TEXT self +:+ word +:+ RESET_TEXT self)
        else if (mode =? "partial")%string
        then Some (Py.replace forbidden
                     (WARNING_TEXT self +:+ forbidden +:+ RESET_TEXT self)
                     word)
        else highlight self mode rest word lower_word
      else highlight self mode rest word lower_word
  end.

(** The outer [for i, word in enumerate(words)] loop of [_info]:
    [todo] holds the tokens from index [i] on, [words] is the list
    being updated in place (an assignment to [words[i]] comes after
    [word] was read and changes no later element). *)
Fixpoint info_loop (self : Self) (mode : string) (i : nat)
    (todo words : list string) : list string :=
  match todo with
  | [] => words
  | word :: todo' =>
      let lower_word := Py.lower word in
      let words' :=
        match highlight self mode (FORBIDDEN_WORDS self) word lower_word
        with
        | Some w => <[i := w]> words
        | None => words
        end in
      info_loop self mode (S i) todo' words'
  end.

(** The line [_info] prints. *)
Definition info_line (self : Self) (current_sentence mode : string)
  : string :=
  let words := Py.split current_sentence in
  Py.join " " (info_loop self mode 0 words words).

Definition _info (current_sentence mode : string) : M unit :=
  let* self := get_self in
  print (info_line self current_sentence mode).

Definition output_audio : M (list string) :=
  let* self := get_self in ret (audio_list self).

Definition cleanup : M unit :=
  let* self := get_self in
  (if is_some (stream self)
   then emit EvStopStream ;; emit EvClose
   else ret tt) ;;
  (if is_some (mic self) then emit EvTerminate else ret tt).

(** One turn of the [while True] loop after a successful
    [stream.read]; returns the new value of the local [current_line].
    [mode in ("full")] is a test on the string ["full"]: the
    parentheses do not make a tuple. *)
Definition loop_body (mode : string) (c : chunk) (current_line : string)
  : M string :=
  match c with
  | NoResult => ret current_line
  | Final result =>
      let* current_line :=
        match result with
        | Some text =>
            let* current_line :=
              (if Py.str_in mode "full"
               then _process_partial_result_and_full_result text mode
               else ret current_line) in
            if Py.str_in mode "partial"
            then _process_partial_result_and_full_result text mode
            else ret current_line
        | None => ret current_line
        end in
      modify_self (λ s, set_audio_list (audio_list s ++ [current_line]) s)
      ;;
      _info current_line mode ;;
      ret current_line
  end.

(** The [while True] loop on a run in which [stream.read] returns
    [length chunks] times and then raises [stop] (an interrupt or a
    read error): the loop only ends by an exception. *)
Fixpoint loop (mode : string) (chunks : list chunk) (stop : exn)
    (current_line : string) : M unit :=
  match chunks with
  | [] => raise stop
  | c :: rest =>
      emit EvRead ;;
      let* current_line := loop_body mode c current_line in
      loop mode rest stop current_line
  end.

Definition monitor_speech (mode : string) (ib : init_behaviour)
    (chunks : list chunk) (stop : exn) : M unit :=
  let* self := get_self in
  (if negb (is_some (recognizer self) && is_some (stream self)
            && is_some (mic self))
   then initialize_audio_stream ib
   else ret tt) ;;
  (if negb ((mode =? "full")%string || (mode =? "partial")%string)
   then raise (ValueError ("Invalid mode: " +:+ mode
                           +:+ ". Use 'full', 'partial'"))
   else ret tt) ;;
  print "Listening for forbidden words -> mode... (Press Ctrl+C to stop)"
  ;;
  try_finally
    (try_except
       (loop mode chunks stop EmptyString)
       (λ e, match e with
             | KeyboardInterrupt =>
                 Some (print (String "010" "Stopping..."))
             | _ =>
                 if is_Exception e
                 then Some (print ("Error during processing: "
                                   +:+ str_exn e))
                 else None
             end))
    cleanup.

(** The final state and the outcome of a computation. *)
Definition exec {A} (m : M A) (st : State World) : State World :=
  fst (m st).
Definition result {A} (m : M A) (st : State World) : outcome A :=
  snd (m st).

End Methods.

(** *** The matching rules in the words of the specification *)

(** Whole mode: the space-padded text contains the space-padded
    trigger. Substring mode: the text contains the trigger. An empty
    trigger, or another mode, matches nothing. *)
Definition detects (mode current_line word : string) : bool :=
  Py.truthy word
  && (((mode =? "full")%string
       && Py.str_in (" " +:+ word +:+ " ") (" " +:+ current_line +:+ " "))
      || ((mode =? "partial")%string && Py.str_in word current_line)).

(** The DetectedSet of an utterance. *)
Definition detected_set (mode text : string) (vocabulary : list string)
  : gset string :=
  list_to_set (List.filter (detects mode (Py.lower text)) vocabulary).

(** The words of [words] that match the line and have a registered
    callback, in order. *)
Definition called {World} (self : Self World)
    (mode current_line : string) (words : list string) : list string :=
  List.filter
    (λ word, detects mode current_line word
             && is_some (callbacks self !! word))
    words.

(** What one turn of the detection loop does while
    [self.detected_words] is empty. *)
Definition body_outcome {World} (self : Self World) (env : Env World)
    (mode cl word : string) (nd : gset string)
  : State World * outcome (gset string) :=
  if detects mode cl word then
    match callbacks self !! word with
    | Some callback =>
        ((self, mkEnv (fst (callback (world env)))
                      (trace env ++ [EvCall word])),
         match snd (callback (world env)) with
         | None => Returned (nd ∪ {[word]})
         | Some e => Raised e
         end)
    | None => ((self, env), Returned (nd ∪ {[word]}))
    end
  else ((self, env), Returned nd).

(** The triggers of the utterance that have a registered callback, in
    the order the vocabulary is met. *)
Definition dispatched {World} (self : Self World) (mode text : string)
  : list string :=
  called self mode (Py.lower text) (FORBIDDEN_WORDS self).

(** A token matches a trigger: in Whole mode it is the trigger up to
    case, in Substring mode it contains the trigger. *)
Definition token_matches (mode forbidden word : string) : bool :=
  ((mode =? "full")%string
   && (Py.lower word =? Py.lower forbidden)%string)
  || ((mode =? "partial")%string
      && Py.str_in forbidden (Py.lower word)).

(** A token between the highlight markers. *)
Definition wrapped {World} (self : Self World) (word : string) : string :=
  WARNING_TEXT self +:+ word +:+ RESET_TEXT self.

(** Whole-mode annotation of one token: wrapped when it is some
    trigger word up to case, left as it is otherwise. *)
Definition annotate_whole {World} (self : Self World) (word : string)
  : string :=
  if existsb (λ forbidden, (Py.lower word =? Py.lower forbidden)%string)
             (FORBIDDEN_WORDS self)
  then wrapped self word else word.

(** What [_info] leaves at [words[i]] for the token [word]. *)
Definition annotate_token {World} (self : Self World) (mode word : string)
  : string :=
  match highlight self mode (FORBIDDEN_WORDS self) word (Py.lower word)
  with
  | Some w => w
  | None => word
  end.

(** The History entries a run of the loop adds: one for each finalized
    result, the lowercased text or, without text, the line before. *)
Fixpoint history_lines (current_line : string) (chunks : list chunk)
  : list string :=
  match chunks with
  | [] => []
  | NoResult :: rest => history_lines current_line rest
  | Final (Some text) :: rest =>
      Py.lower text :: history_lines (Py.lower text) rest
  | Final None :: rest => current_line :: history_lines current_line rest
  end.

Definition is_final (c : chunk) : bool :=
  match c with Final _ => true | NoResult => false end.

(** No registered callback raises. *)
Definition callbacks_return {World} (self : Self World) : Prop :=
  ∀ word callback w,
    callbacks self !! word = Some callback → snd (callback w) = None.

(** The monitor holds its recognizer, stream and device. *)
Definition ready {World} (self : Self World) : bool :=
  is_some (recognizer self) && is_some (stream self)
  && is_some (mic self).

(** The monitor once [initialize_audio_stream] has returned, and the
    calls it made. *)
Definition acquire {World} (self : Self World) : Self World :=
  set_stream (Some Handle)
    (set_mic (Some Handle) (set_recognizer (Some Handle) self)).

Definition init_events : list event :=
  [EvModel; EvRecognizer; EvPyAudio; EvOpen].

(** The events that release the stream or the device. *)
Definition is_release (ev : event) : bool :=
  match ev with
  | EvStopStream | EvClose | EvTerminate => true
  | _ => false
  end.

Definition release_events : list event :=
  [EvStopStream; EvClose; EvTerminate].

(** The error [monitor_speech] raises for a mode it does not know. *)
Definition invalid_mode (mode : string) : exn :=
  ValueError ("Invalid mode: " +:+ mode +:+ ". Use 'full', 'partial'").

(** What the [except] clauses of [monitor_speech] print for [e]. *)
Definition handler_events (e : exn) : list event :=
  match e with
  | KeyboardInterrupt => [EvPrint (String "010" "Stopping...")]
  | _ =>
      if is_Exception e
      then [EvPrint ("Error during processing: " +:+ str_exn e)]
      else []
  end.

(** Whether the [except] clauses of [monitor_speech] catch [e]. *)
Definition caught (e : exn) : bool :=
  match e with
  | KeyboardInterrupt => true
  | _ => is_Exception e
  end.

(** The line a turn of the loop leaves in [current_line]. *)
Definition next_line (current_line : string) (c : chunk) : string :=
  match c with
  | Final (Some text) => Py.lower text
  | Final None | NoResult => current_line
  end.

(** The trigger words of the vocabulary that match the utterance, in
    the order the vocabulary is met. *)
Definition matching (mode text : string) (vocabulary : list string)
  : list string :=
  List.filter (detects mode (Py.lower text)) vocabulary.

(** What invoking actions one after the other comes to: the world they
    leave, the words whose action was invoked, in order, and the error
    of the last one when it raised. *)
Record firing (World : Type) : Type := mkFiring {
  reached : World;
  fired : list string;
  failure : option exn
}.
Arguments mkFiring {World} reached fired failure.
Arguments reached {World} f.
Arguments fired {World} f.
Arguments failure {World} f.

(** Invoking, from the world [w] and in order, the actions registered
    for [words]: a word without action is passed over, each action acts
    on the world the one before it left, and the first action that
    raises is the last one invoked. *)
Fixpoint fire {World} (cbs : gmap string (Action World))
    (words : list string) (w : World) : firing World :=
  match words with
  | [] => mkFiring w [] None
  | word :: rest =>
      match cbs !! word with
      | Some callback =>
          match snd (callback w) with
          | Some e => mkFiring (fst (callback w)) [word] (Some e)
          | None =>
              let f := fire cbs rest (fst (callback w)) in
              mkFiring (reached f) (word :: fired f) (failure f)
          end
      | None => fire cbs rest w
      end
  end.

(** The results a run gets through, from the world [w]: the results up
    to the first finalized result with text during whose detection pass
    an invoked action raises. *)
Fixpoint completed {World} (cbs : gmap string (Action World))
    (mode : string) (vocabulary : list string) (chunks : list chunk)
    (w : World) : list chunk :=
  match chunks with
  | [] => []
  | Final (Some text) :: rest =>
      let f := fire cbs (matching mode text vocabulary) w in
      match failure f with
      | Some _ => []
      | None =>
          Final (Some text)
          :: completed cbs mode vocabulary rest (reached f)
      end
  | c :: rest => c :: completed cbs mode vocabulary rest w
  end.

End Monitor.

(** ** The program of the [__main__] block *)
Module Main.

Import Monitor.
Local Open Scope monitor_scope.

(** The keyboard as the callbacks see it: the key events sent and the
    pauses between them (in milliseconds). *)
Inductive key : Type := Char (c : string) | Space.
Inductive key_event : Type :=
| Press (k : key)
| Release (k : key)
| Sleep (ms : N).

Definition Keyboard : Type := list key_event.

(** A callback that sends key events and returns. *)
Definition keys (evs : list key_event) : Action Keyboard :=
  λ w, (w ++ evs, None).

(** A callback that raises. *)
Definition failing (e : exn) : Action Keyboard := λ w, (w, Some e).

Definition hold (c : string) (ms : N) : list key_event :=
  [Press (Char c); Sleep ms; Release (Char c)].

Definition forward_callback := keys (hold "w" 3000%N).
Definition backward_callback := keys (hold "s" 3000%N).
Definition left_callback := keys (hold "a" 3000%N).
Definition right_callback := keys (hold "d" 3000%N).
Definition dash_forward_callback :=
  keys [Press (Char "w"); Sleep 100%N; Press Space; Sleep 200%N;
        Release Space; Sleep 100%N; Release (Char "w")].
Definition enter_callback := keys (hold "e" 200%N ++ [Sleep 100%N]).
Definition attack_callback := keys (hold "p" 200%N ++ [Sleep 100%N]).
Definition drink_callback := keys (hold "r" 200%N ++ [Sleep 100%N]).
Definition lock_callback := keys (hold "q" 200%N ++ [Sleep 100%N]).

(** The vocabulary of [get_config]. *)
Definition forbidden_words : list string :=
  ["forward"; "backward"; "left"; "right"; "roll"; "dash"; "matrix";
   "attack"; "drink"; "heal"; "potion"; "lock"; "enemy"; "run"; "stop"].

(** The default highlight markers, [ESC[1;31m] and [ESC[0m]. *)
Definition warning_text : string := String "027" "[1;31m".
Definition reset_text : string := String "027" "[0m".

Definition new_monitor (words : list string) : Self Keyboard :=
  SpeechMonitor "model" words 16000%N 4096%N warning_text reset_text.

Definition registrations : list (string * Action Keyboard) :=
  [("forward", forward_callback); ("backward", backward_callback);
   ("right", right_callback); ("left", left_callback);
   ("roll", dash_forward_callback); ("dash", dash_forward_callback);
   ("matrix", enter_callback); ("drink", drink_callback);
   ("heal", drink_callback); ("potion", drink_callback);
   ("lock", lock_callback); ("enemy", lock_callback);
   ("attack", attack_callback)].

Fixpoint register_all (regs : list (string * Action Keyboard))
  : M Keyboard unit :=
  match regs with
  | [] => ret tt
  | (word, callback) :: rest =>
      register_callback word callback ;; register_all rest
  end.

Definition env0 : Env Keyboard := mkEnv [] [].

(** The monitor of the [__main__] block after its registrations. *)
Definition monitor : Self Keyboard :=
  fst (exec (register_all registrations)
            (new_monitor forbidden_words, env0)).

(** The same monitor with a callback for ["attack"] that raises. *)
Definition monitor_failing_attack : Self Keyboard :=
  fst (exec (register_callback "attack" (failing (Exception "boom")))
            (monitor, env0)).

(** A monitor for the vocabulary [{"left", "right"}]. *)
Definition monitor_left_right : Self Keyboard :=
  fst (exec (register_all registrations)
            (new_monitor ["left"; "right"], env0)).

(** A monitor for the vocabulary [{"right"}]. *)
Definition monitor_right : Self Keyboard :=
  fst (exec (register_all registrations) (new_monitor ["right"], env0)).

(** A callback that sends its key events on a keyboard that has not
    been used and raises once keys have been sent: an action that
    works the first time it is invoked and fails the second time. *)
Definition once (evs : list key_event) : Action Keyboard :=
  λ w, match w with
       | [] => (evs, None)
       | _ :: _ => (w, Some (Exception "busy"))
       end.

(** A monitor for the vocabulary [{"run"}] with such a callback. *)
Definition monitor_run_once : Self Keyboard :=
  fst (exec (register_callback "run" (once (hold "w" 3000%N)))
            (new_monitor ["run"], env0)).

End Main.


(** ** Notions used to state what the methods keep *)
Module Props.

Import Monitor.

(** [s[k:]]. *)
Fixpoint drop (k : nat) (s : string) : string :=
  match k, s with
  | O, _ => s
  | S _, EmptyString => EmptyString
  | S k', String _ s' => drop k' s'
  end.

(** Substring-mode annotation of one token: the first trigger word, in
    the order of the vocabulary, that occurs in the lowercased token has
    its occurrences in the token wrapped; a token in which none occurs is
    left as it is. *)
Definition annotate_substring {World} (self : Self World) (word : string)
  : string :=
  match
    List.find (λ forbidden, Py.str_in forbidden (Py.lower word))
              (FORBIDDEN_WORDS self)
  with
  | Some forbidden => Py.replace forbidden (wrapped self forbidden) word
  | None => word
  end.

(** The error with which [initialize_audio_stream] fails, if it does, and
    the calls that returned before it. *)
Definition init_error (ib : init_behaviour) : option exn :=
  match ib with
  | InitOk => None
  | ModelFails e | RecognizerFails e | PyAudioFails e | OpenFails e => Some e
  end.

Definition acquired_before (ib : init_behaviour) : list event :=
  match ib with
  | ModelFails _ => []
  | RecognizerFails _ => [EvModel]
  | PyAudioFails _ => [EvModel; EvRecognizer]
  | OpenFails _ => [EvModel; EvRecognizer; EvPyAudio]
  | InitOk => init_events
  end.

(** What [initialize_audio_stream] prints when it fails with [e]. *)
Definition init_message (e : exn) : list event :=
  if is_Exception e
  then [EvPrint ("Initialization failed: " +:+ str_exn e)]
  else [].

(** A property of the state that the steps of the methods keep: printing
    and device calls, calling a registered callback, storing a DetectedSet,
    appending a History line, storing a handle. *)
Record stable {World} (I : State World → Prop) : Prop := mkStable {
  stable_emit : ∀ self w tr ev,
    I (self, mkEnv w tr) → I (self, mkEnv w (tr ++ [ev]));
  stable_call : ∀ self w tr word callback,
    callbacks self !! word = Some callback →
    I (self, mkEnv w tr) → I (self, mkEnv (fst (callback w)) tr);
  stable_detected : ∀ self env dw,
    I (self, env) → I (set_detected_words dw self, env);
  stable_append : ∀ self env line,
    I (self, env) → I (set_audio_list (audio_list self ++ [line]) self, env);
  stable_recognizer : ∀ self env,
    I (self, env) → I (set_recognizer (Some Handle) self, env);
  stable_mic : ∀ self env,
    I (self, env) → I (set_mic (Some Handle) self, env);
  stable_stream : ∀ self env,
    I (self, env) → I (set_stream (Some Handle) self, env)
}.

(** The computation [m] keeps [I], whether it returns or raises. *)
Definition keeps {World A} (I : State World → Prop) (m : M World A)
  : Prop :=
  ∀ st, I st → I (fst (m st)).

(** The configuration of a monitor: what [__init__] and
    [register_callback] set and the methods only read. *)
Definition same_config {World} (self self' : Self World) : Prop :=
  MODEL_PATH self' = MODEL_PATH self
  ∧ SAMPLE_RATE self' = SAMPLE_RATE self
  ∧ BUFFER_SIZE self' = BUFFER_SIZE self
  ∧ FORBIDDEN_WORDS self' = FORBIDDEN_WORDS self
  ∧ WARNING_TEXT self' = WARNING_TEXT self
  ∧ RESET_TEXT self' = RESET_TEXT self
  ∧ callbacks self' = callbacks self.

(** Every registered callback keeps the property [P] of the world. *)
Definition callbacks_preserve {World} (P : World → Prop)
    (self : Self World) : Prop :=
  ∀ word callback w,
    callbacks self !! word = Some callback → P w → P (fst (callback w)).

Definition key_eqb (k1 k2 : Main.key) : bool :=
  match k1, k2 with
  | Main.Char c1, Main.Char c2 => (c1 =? c2)%string
  | Main.Space, Main.Space => true
  | _, _ => false
  end.

(** The key events [evs] press and release keys of [allowed] only. *)
Definition only_keys (allowed : list Main.key) (evs : Main.Keyboard)
  : bool :=
  forallb
    (λ ev, match ev with
           | Main.Press k | Main.Release k => existsb (key_eqb k) allowed
           | Main.Sleep _ => true
           end)
    evs.

(** The keys the callbacks of the [__main__] block use. *)
Definition main_keys : list Main.key :=
  [Main.Char "w"; Main.Char "s"; Main.Char "a"; Main.Char "d"; Main.Space;
   Main.Char "e"; Main.Char "p"; Main.Char "r"; Main.Char "q"].

End Props.

(** ** Facts about the string primitives *)
Module PyFacts.

Import Py.

Lemma app_nil_l (s : string) : EmptyString +:+ s = s.
Proof. reflexivity. Qed.

Lemma app_cons (c : ascii) (s t : string) :
  String c s +:+ t = String c (s +:+ t).
Proof. reflexivity. Qed.

Lemma app_nil_r (s : string) : s +:+ EmptyString = s.
Proof.
  induction s as [|c s IH]; [reflexivity|].
  rewrite app_cons. by rewrite IH.
Qed.

Lemma app_assoc (s t u : string) : (s +:+ t) +:+ u = s +:+ (t +:+ u).
Proof.
  induction s as [|c s IH]; [reflexivity|].
  rewrite !app_cons. by rewrite IH.
Qed.

Lemma app_length (s t : string) :
  String.length (s +:+ t) = String.length s + String.length t.
Proof.
  induction s as [|c s IH]; [reflexivity|].
  rewrite app_cons. simpl. by rewrite IH.
Qed.

Lemma prefix_nil (s : string) : String.prefix EmptyString s = true.
Proof. by destruct s. Qed.

(** [String.prefix] is [str.startswith]. *)
Lemma prefix_spec (p s : string) :
  String.prefix p s = true ↔ ∃ post, s = p +:+ post.
Proof.
  revert s. induction p as [|c p IH]; intros s.
  - rewrite prefix_nil. split; [|done]. intros _. by exists s.
  - destruct s as [|d s]; simpl.
    + split; [done|]. by intros [post ?].
    + destruct (ascii_dec c d) as [->|Hne].
      * rewrite IH. split; intros [post Hpost]; exists post.
        -- rewrite app_cons. by rewrite Hpost.
        -- rewrite app_cons in Hpost. by injection Hpost.
      * split; [done|]. intros [post Hpost].
        rewrite app_cons in Hpost. by injection Hpost.
Qed.

Lemma str_in_cons (needle : string) (c : ascii) (hay : string) :
  str_in needle (String c hay)
  = String.prefix needle (String c hay) || str_in needle hay.
Proof. reflexivity. Qed.

Lemma str_in_nil (needle : string) :
  str_in needle EmptyString = String.prefix needle EmptyString.
Proof. simpl. by rewrite orb_false_r. Qed.

(** [needle in hay] holds exactly when [hay] is [needle] between two
    strings. *)
Lemma str_in_spec (needle hay : string) :
  str_in needle hay = true ↔ ∃ pre post, hay = pre +:+ needle +:+ post.
Proof.
  induction hay as [|c hay IH].
  - rewrite str_in_nil, prefix_spec. split.
    + intros [post Hpost]. by exists EmptyString, post.
    + intros [pre [post Hpost]]. destruct pre as [|d pre].
      * by exists post.
      * by rewrite app_cons in Hpost.
  - rewrite str_in_cons, orb_true_iff, prefix_spec, IH. split.
    + intros [[post Hpost]|[pre [post Hpost]]].
      * by exists EmptyString, post.
      * exists (String c pre), post. rewrite app_cons. by rewrite Hpost.
    + intros [pre [post Hpost]]. destruct pre as [|d pre].
      * left. by exists post.
      * right. exists pre, post. rewrite app_cons in Hpost.
        by injection Hpost.
Qed.

Lemma str_in_refl (s : string) : str_in s s = true.
Proof.
  apply str_in_spec. exists EmptyString, EmptyString.
  by rewrite app_nil_l, app_nil_r.
Qed.

Lemma str_in_empty (hay : string) : str_in EmptyString hay = true.
Proof. apply str_in_spec. by exists EmptyString, hay. Qed.

(** A needle is no longer than the string it occurs in. *)
Lemma str_in_length (needle hay : string) :
  str_in needle hay = true → String.length needle ≤ String.length hay.
Proof.
  intros [pre [post ->]]%str_in_spec. rewrite !app_length. lia.
Qed.

Lemma truthy_spec (s : string) : truthy s = true ↔ s ≠ EmptyString.
Proof. by destruct s. Qed.

(** Only the empty string occurs in the empty string. *)
Lemma str_in_nil_inv (needle : string) :
  str_in needle EmptyString = true → needle = EmptyString.
Proof.
  intros H%str_in_length. destruct needle; [done|]. simpl in H. lia.
Qed.

(** Only the empty word, once padded, occurs in the padded empty
    line. *)
Lemma str_in_padded_nil_inv (word : string) :
  str_in (" " +:+ word +:+ " ") (" " +:+ EmptyString +:+ " ") = true →
  word = EmptyString.
Proof.
  intros H%str_in_length. rewrite !app_length in H.
  destruct word; [done|]. simpl in H. lia.
Qed.

Local Arguments isspace : simpl never.

Lemma split_cons_space (c : ascii) (s : string) :
  isspace c = true → split (String c s) = split s.
Proof. intros Hc. simpl. by rewrite Hc. Qed.

Lemma split_single (c : ascii) :
  isspace c = false → split (String c EmptyString) = [String c EmptyString].
Proof. intros Hc. simpl. by rewrite Hc. Qed.

(** One step of [split] at the start of a token. *)
Lemma split_cons_cons (c c' : ascii) (s : string) :
  isspace c = false →
  split (String c (String c' s))
  = if isspace c' then String c EmptyString :: split (String c' s)
    else match split (String c' s) with
         | t :: ts => String c t :: ts
         | [] => [String c EmptyString]
         end.
Proof.
  intros Hc.
  change (split (String c (String c' s)))
    with (if isspace c then split (String c' s)
          else if isspace c'
               then String c EmptyString :: split (String c' s)
               else match split (String c' s) with
                    | t :: ts => String c t :: ts
                    | [] => [String c EmptyString]
                    end).
  by rewrite Hc.
Qed.

Lemma is_token_cons (c : ascii) (s : string) :
  is_token (String c s) = negb (isspace c) && no_space s.
Proof. reflexivity. Qed.

Lemma is_token_cons_inv (c : ascii) (s : string) :
  is_token (String c s) = true → isspace c = false ∧ no_space s = true.
Proof.
  rewrite is_token_cons, andb_true_iff, negb_true_iff. tauto.
Qed.

Lemma isspace_space : isspace " " = true.
Proof. reflexivity. Qed.

(** A token followed by a space: [split] cuts it off. *)
Lemma split_token_app (tok rest : string) :
  is_token tok = true →
  split (tok +:+ String " " rest) = tok :: split rest.
Proof.
  destruct tok as [|c tok]; [done|]. revert c.
  induction tok as [|c' tok IH]; intros c [Hc Htok]%is_token_cons_inv.
  - rewrite app_cons, app_nil_l, split_cons_cons, isspace_space by done.
    by rewrite split_cons_space.
  - pose proof (IH c' Htok) as IH'.
    apply is_token_cons_inv in Htok as [Hc' _].
    rewrite !app_cons in *. rewrite split_cons_cons by done.
    by rewrite Hc', IH'.
Qed.

(** A token alone is its own single token. *)
Lemma split_token (tok : string) :
  is_token tok = true → split tok = [tok].
Proof.
  destruct tok as [|c tok]; [done|]. revert c.
  induction tok as [|c' tok IH]; intros c [Hc Htok]%is_token_cons_inv.
  - by apply split_single.
  - pose proof (IH c' Htok) as IH'.
    apply is_token_cons_inv in Htok as [Hc' _].
    rewrite split_cons_cons by done. by rewrite Hc', IH'.
Qed.

(** What [split] returns are tokens. *)
Lemma split_tokens (s : string) : Forall (λ t, is_token t = true) (split s).
Proof.
  induction s as [|c s IH]; [constructor|].
  destruct (isspace c) eqn:Hc.
  - by rewrite split_cons_space.
  - assert (Hone : is_token (String c EmptyString) = true)
      by (by rewrite is_token_cons, Hc).
    destruct s as [|c' s].
    + rewrite split_single by done. by constructor.
    + rewrite split_cons_cons by done. destruct (isspace c').
      * by constructor.
      * destruct (split (String c' s)) as [|t ts]; [by constructor|].
        inversion IH as [|? ? Ht Hts]; subst.
        constructor; [|done]. rewrite is_token_cons, Hc. simpl.
        unfold is_token in Ht. by apply andb_true_iff in Ht as [_ ?].
Qed.

(** Tokens joined by single spaces split back into themselves. *)
Lemma split_join (toks : list string) :
  Forall (λ t, is_token t = true) toks → split (join " " toks) = toks.
Proof.
  induction 1 as [|tok toks Htok Htoks IH]; [reflexivity|].
  destruct toks as [|tok' toks].
  - by apply split_token.
  - change (join " " (tok :: tok' :: toks))
      with (tok +:+ String " " (join " " (tok' :: toks))).
    rewrite split_token_app by done. by rewrite IH.
Qed.

(** Joining the tokens of a text by single spaces keeps its tokens:
    only the whitespace between and around them changes. *)
Lemma split_join_split (s : string) : split (join " " (split s)) = split s.
Proof. apply split_join, split_tokens. Qed.

End PyFacts.

(** ** Facts about the detection pass *)
Module DetectionFacts.

Import Monitor.
Local Open Scope monitor_scope.

Local Arguments Py.str_in : simpl never.

Section WithWorld.

Context {World : Type}.
Implicit Types (self : Self World) (env : Env World).

(** While [self.detected_words] is empty, the two tests of the loop
    body are the matching rule of the mode; at most one of them
    holds. *)
Lemma full_test_empty (word cl mode : string) :
  full_test word cl mode ∅
  = Py.truthy word
    && ((mode =? "full")%string
        && Py.str_in (" " +:+ word +:+ " ") (" " +:+ cl +:+ " ")).
Proof.
  unfold full_test.
  rewrite (bool_decide_eq_false_2 ("full" ∈ (∅ : gset string)))
    by apply not_elem_of_empty.
  destruct (Py.str_in _ _), (Py.truthy word), (mode =? "full")%string;
    reflexivity.
Qed.

Lemma partial_test_empty (word cl mode : string) :
  partial_test word cl mode ∅
  = Py.truthy word
    && ((mode =? "partial")%string && Py.str_in word cl).
Proof.
  unfold partial_test.
  rewrite (bool_decide_eq_false_2 ("partial" ∈ (∅ : gset string)))
    by apply not_elem_of_empty.
  destruct (Py.str_in _ _), (Py.truthy word),
    (mode =? "partial")%string; reflexivity.
Qed.

Lemma mode_exclusive (mode : string) :
  (mode =? "full")%string && (mode =? "partial")%string = false.
Proof.
  destruct (String.eqb_spec mode "full") as [->|]; [reflexivity|done].
Qed.

Lemma detection_body_spec self env (mode cl word : string)
    (nd : gset string) :
  detected_words self = ∅ →
  detection_body cl mode word nd (self, env)
  = body_outcome self env mode cl word nd.
Proof.
  intros Hdw.
  pose proof (mode_exclusive mode) as Hex.
  unfold detection_body, body_outcome, detects.
  unfold _execute_callbacks, call, emit, bind, get_self, ret. simpl.
  rewrite Hdw, full_test_empty.
  destruct (Py.truthy word) eqn:Htruthy,
    (mode =? "full")%string eqn:Hfull,
    (mode =? "partial")%string eqn:Hpartial; try discriminate Hex;
    simpl;
    repeat first
      [ progress rewrite ?Hdw, ?partial_test_empty, ?Htruthy, ?Hpartial
      | progress simpl
      | rewrite orb_false_r
      | match goal with
        | |- context [Py.str_in ?a ?b] => destruct (Py.str_in a b)
        | |- context [callbacks self !! ?w] =>
            destruct (callbacks self !! w)
        | |- context [?callback (world env)] =>
            destruct (callback (world env)) as [? [?|]]
        end ];
    reflexivity.
Qed.

Lemma called_cons self (mode cl w : string) (words : list string) :
  called self mode cl (w :: words)
  = if detects mode cl w && is_some (callbacks self !! w)
    then w :: called self mode cl words
    else called self mode cl words.
Proof. reflexivity. Qed.

(** The detection loop, started with [self.detected_words] empty:
    the object is left as it is; a loop that ends has met every
    matching word and called the callbacks of those that have one, in
    order; a loop that raises stopped at a matching word whose
    callback raised, after calling those before it. *)
Lemma detection_loop_spec (mode cl : string) (words : list string) :
  ∀ (nd : gset string) self env st' r,
    detected_words self = ∅ →
    detection_loop cl mode words nd (self, env) = (st', r) →
    fst st' = self
    ∧ match r with
      | Returned nd' =>
          nd' = nd ∪ list_to_set (List.filter (detects mode cl) words)
          ∧ trace (snd st')
            = trace env ++ map EvCall (called self mode cl words)
      | Raised e =>
          ∃ pre w post callback w0,
            words = pre ++ w :: post
            ∧ detects mode cl w = true
            ∧ callbacks self !! w = Some callback
            ∧ snd (callback w0) = Some e
            ∧ trace (snd st')
              = trace env ++ map EvCall (called self mode cl pre)
                ++ [EvCall w]
      end.
Proof.
  induction words as [|w words IH]; intros nd self env st' r Hdw Heq.
  - injection Heq as <- <-. simpl. split; [done|]. split.
    + by rewrite (right_id_L ∅ (∪)).
    + by rewrite app_nil_r.
  - simpl in Heq. unfold bind at 1 in Heq.
    rewrite detection_body_spec in Heq by done.
    unfold body_outcome in Heq. rewrite called_cons. simpl List.filter.
    destruct (detects mode cl w) eqn:Hd; simpl.
    + destruct (callbacks self !! w) as [callback|] eqn:Hcb; simpl.
      * destruct (snd (callback (world env))) as [e|] eqn:Hr.
        -- injection Heq as <- <-. split; [done|].
           exists [], w, words, callback, (world env).
           by rewrite Hd, Hcb, Hr.
        -- apply IH in Heq as [Hself Hr']; [|done]. split; [done|].
           destruct r as [nd'|e].
           ++ destruct Hr' as [-> Htr]. split.
              { by rewrite (assoc_L (∪)). }
              rewrite Htr. simpl. by rewrite <- app_assoc.
           ++ destruct Hr' as (pre & w' & post & cb' & w0 & -> & Hd'
                               & Hcb' & He & Htr).
              exists (w :: pre), w', post, cb', w0.
              rewrite called_cons, Hd, Hcb. simpl.
              repeat split; try done.
              rewrite Htr. simpl. by rewrite <- app_assoc.
      * apply IH in Heq as [Hself Hr']; [|done]. split; [done|].
        destruct r as [nd'|e].
        ++ destruct Hr' as [-> Htr]. split; [|done].
           by rewrite (assoc_L (∪)).
        ++ destruct Hr' as (pre & w' & post & cb' & w0 & -> & Hd'
                            & Hcb' & He & Htr).
           exists (w :: pre), w', post, cb', w0.
           rewrite called_cons, Hd, Hcb. by simpl.
    + apply IH in Heq as [Hself Hr']; [|done]. split; [done|].
      destruct r as [nd'|e]; [done|].
      destruct Hr' as (pre & w' & post & cb' & w0 & -> & Hd'
                       & Hcb' & He & Htr).
      exists (w :: pre), w', post, cb', w0.
      rewrite called_cons, Hd. by simpl.
Qed.

(** [_process_partial_result_and_full_result]: a call that returns
    gives the lowercased text, leaves the DetectedSet of the utterance
    in [self.detected_words] and has called the callbacks of the
    detected words; a call that raises leaves [self.detected_words]
    empty and stopped at the callback that raised. Nothing else in
    the object changes. *)
Lemma process_spec (text mode : string) self env st' r :
  _process_partial_result_and_full_result text mode (self, env)
  = (st', r) →
  match r with
  | Returned line =>
      line = Py.lower text
      ∧ fst st'
        = set_detected_words
            (detected_set mode text (FORBIDDEN_WORDS self)) self
      ∧ trace (snd st')
        = trace env ++ map EvCall (dispatched self mode text)
  | Raised e =>
      fst st' = set_detected_words ∅ self
      ∧ ∃ pre w post callback w0,
          FORBIDDEN_WORDS self = pre ++ w :: post
          ∧ detects mode (Py.lower text) w = true
          ∧ callbacks self !! w = Some callback
          ∧ snd (callback w0) = Some e
          ∧ trace (snd st')
            = trace env
              ++ map EvCall (called self mode (Py.lower text) pre)
              ++ [EvCall w]
  end.
Proof.
  unfold _process_partial_result_and_full_result.
  unfold bind at 1, modify_self at 1. simpl.
  unfold bind at 1, get_self at 1. simpl.
  unfold bind at 1.
  destruct (detection_loop _ _ _ _ _) as [st1 r1] eqn:Hloop.
  apply detection_loop_spec in Hloop as [Hself Hr1]; [|done].
  destruct r1 as [nd|e].
  - destruct Hr1 as [Hnd Htr]. rewrite (left_id_L ∅ (∪)) in Hnd.
    destruct st1 as [self1 env1]. simpl in Hself, Htr. subst self1.
    unfold bind, modify_self, ret. case_bool_decide as Hempty; simpl.
    + intros [= <- <-]. simpl. split; [done|]. split; [|done].
      unfold detected_set. by rewrite <- Hnd, Hempty.
    + intros [= <- <-]. simpl. split; [done|]. split; [|done].
      unfold detected_set. rewrite <- Hnd.
      unfold set_detected_words. simpl. by rewrite (left_id_L ∅ (∪)).
  - intros [= <- <-]. split; [done|]. exact Hr1.
Qed.

Lemma process_cases (text mode : string) self env :
  ∃ st' r,
    _process_partial_result_and_full_result text mode (self, env)
    = (st', r).
Proof. by eexists _, _; apply surjective_pairing. Qed.

(** Membership in the DetectedSet, rule by rule. *)
Lemma elem_of_detected_set (mode text word : string)
    (vocabulary : list string) :
  word ∈ detected_set mode text vocabulary
  ↔ word ∈ vocabulary ∧ detects mode (Py.lower text) word = true.
Proof.
  unfold detected_set.
  rewrite elem_of_list_to_set, !list_elem_of_In. apply filter_In.
Qed.

Lemma detects_spec (mode cl word : string) :
  detects mode cl word = true
  ↔ word ≠ EmptyString
    ∧ ((mode = "full"
        ∧ Py.str_in (" " +:+ word +:+ " ") (" " +:+ cl +:+ " ") = true)
       ∨ (mode = "partial" ∧ Py.str_in word cl = true)).
Proof.
  unfold detects.
  rewrite andb_true_iff, orb_true_iff, !andb_true_iff.
  by rewrite PyFacts.truthy_spec, !String.eqb_eq.
Qed.

(** Nothing matches the empty line. *)
Lemma detects_empty_line (mode word : string) :
  detects mode EmptyString word = false.
Proof.
  apply not_true_is_false. rewrite detects_spec.
  intros [Hne [[_ Hin]|[_ Hin]]]; apply Hne.
  - by apply PyFacts.str_in_padded_nil_inv.
  - by apply PyFacts.str_in_nil_inv.
Qed.

(** A loop over words that do not match changes nothing. *)
Lemma detection_loop_no_match (mode cl : string) (words : list string)
    (nd : gset string) self env :
  detected_words self = ∅ →
  (∀ w, w ∈ words → detects mode cl w = false) →
  detection_loop cl mode words nd (self, env) = ((self, env), Returned nd).
Proof.
  intros Hdw. induction words as [|w words IH]; intros Hno.
  - reflexivity.
  - simpl. unfold bind.
    rewrite detection_body_spec by done. unfold body_outcome.
    rewrite Hno by (apply elem_of_cons; by left). apply IH.
    intros w' Hw'. apply Hno. apply elem_of_cons. by right.
Qed.

Lemma process_empty_text (mode : string) self env :
  _process_partial_result_and_full_result EmptyString mode (self, env)
  = ((set_detected_words ∅ self, env), Returned EmptyString).
Proof.
  unfold _process_partial_result_and_full_result.
  unfold bind at 1, modify_self at 1. simpl.
  unfold bind at 1, get_self at 1. simpl.
  unfold bind at 1.
  rewrite detection_loop_no_match;
    [|done|intros; apply detects_empty_line].
  unfold bind, ret. by rewrite bool_decide_eq_true_2.
Qed.

(** The callbacks a pass calls are those of words that match. *)
Lemma pass_calls_matching (text mode : string) self env :
  ∃ words,
    trace (snd (exec (_process_partial_result_and_full_result text mode)
                     (self, env)))
    = trace env ++ map EvCall words
    ∧ ∀ w, w ∈ words → detects mode (Py.lower text) w = true.
Proof.
  unfold exec.
  destruct (process_cases text mode self env) as (st' & r & Heq).
  rewrite Heq. cbn [fst snd]. apply process_spec in Heq.
  assert (Hcalled : ∀ words w,
             w ∈ called self mode (Py.lower text) words →
             detects mode (Py.lower text) w = true).
  { intros words w [_ Hw]%list_elem_of_In%filter_In.
    by apply andb_true_iff in Hw as [? _]. }
  destruct r as [line|e].
  - destruct Heq as (_ & _ & ->). eexists. split; [reflexivity|].
    apply Hcalled.
  - destruct Heq as (_ & pre & w & post & callback & w0 & _ & Hd & _ & _
                     & ->).
    exists (called self mode (Py.lower text) pre ++ [w]).
    split; [by rewrite map_app|].
    intros w' [Hin|Hin]%elem_of_app; [by eapply Hcalled|].
    by apply list_elem_of_singleton in Hin as ->.
Qed.

(** *** The pass as the invocation of the matching words' actions *)

Lemma fire_app (cbs : gmap string (Action World))
    (words1 words2 : list string) :
  ∀ w,
    fire cbs (words1 ++ words2) w
    = match failure (fire cbs words1 w) with
      | Some _ => fire cbs words1 w
      | None =>
          mkFiring
            (reached (fire cbs words2 (reached (fire cbs words1 w))))
            (fired (fire cbs words1 w)
             ++ fired (fire cbs words2 (reached (fire cbs words1 w))))
            (failure (fire cbs words2 (reached (fire cbs words1 w))))
      end.
Proof.
  induction words1 as [|word words1 IH]; intros w.
  - cbn. by destruct (fire cbs words2 w).
  - cbn [app fire]. destruct (cbs !! word) as [callback|]; [|apply IH].
    destruct (snd (callback w)) as [e|]; [reflexivity|].
    rewrite IH.
    by destruct (fire cbs words1 (fst (callback w))) as [w1 fired1 [e1|]].
Qed.

(** When no invoked action raises, the actions invoked are those of
    the matching words that have one. *)
Lemma fire_returns self (mode cl : string) (words : list string) :
  ∀ w,
    failure (fire (callbacks self) (List.filter (detects mode cl) words) w)
    = None →
    fired (fire (callbacks self) (List.filter (detects mode cl) words) w)
    = called self mode cl words.
Proof.
  induction words as [|word words IH]; intros w; [reflexivity|].
  rewrite called_cons. cbn [List.filter].
  destruct (detects mode cl word); cbn [andb]; [|apply IH].
  cbn [fire]. destruct (callbacks self !! word) as [callback|];
    cbn [is_some]; [|apply IH].
  destruct (snd (callback w)) as [e|]; [discriminate|].
  cbn [failure fired]. intros Hnone. by rewrite IH.
Qed.

Lemma fire_callbacks_return self (words : list string) :
  callbacks_return self →
  ∀ w, failure (fire (callbacks self) words w) = None.
Proof.
  intros Hcb. induction words as [|word words IH]; intros w; [reflexivity|].
  cbn [fire]. destruct (callbacks self !! word) as [callback|] eqn:Hlk;
    [|apply IH].
  rewrite (Hcb word callback w Hlk). cbn [failure]. apply IH.
Qed.

(** The detection loop, started with [self.detected_words] empty, is
    the invocation of the actions of the matching words. *)
Lemma detection_loop_fire (mode cl : string) (words : list string) :
  ∀ (nd : gset string) self env,
    detected_words self = ∅ →
    detection_loop cl mode words nd (self, env)
    = let f :=
        fire (callbacks self) (List.filter (detects mode cl) words)
             (world env) in
      ((self, mkEnv (reached f) (trace env ++ map EvCall (fired f))),
       match failure f with
       | None =>
           Returned
             (nd ∪ list_to_set (List.filter (detects mode cl) words))
       | Some e => Raised e
       end).
Proof.
  induction words as [|word words IH]; intros nd self env Hdw.
  - cbn. unfold ret. rewrite app_nil_r, (right_id_L ∅ (∪)). by destruct env.
  - cbn [detection_loop]. unfold bind at 1.
    rewrite detection_body_spec by done. unfold body_outcome.
    cbn [List.filter]. destruct (detects mode cl word); [|by apply IH].
    cbn [fire]. destruct (callbacks self !! word) as [callback|].
    + destruct (snd (callback (world env))) as [e|]; [reflexivity|].
      rewrite IH by done. cbn [world trace reached fired failure map
                                list_to_set].
      rewrite <- app_assoc. cbn [app]. by rewrite (assoc_L (∪)).
    + rewrite IH by done. cbn [list_to_set]. by rewrite (assoc_L (∪)).
Qed.

(** [_process_partial_result_and_full_result], in full: the actions of
    the matching words are invoked; when none raises the pass returns
    the lowercased text and leaves the matching words in
    [self.detected_words]; when one raises the pass raises its error
    and leaves [self.detected_words] empty. *)
Lemma process_fire (text mode : string) self env :
  _process_partial_result_and_full_result text mode (self, env)
  = let f :=
      fire (callbacks self) (matching mode text (FORBIDDEN_WORDS self))
           (world env) in
    ((set_detected_words
        (match failure f with
         | None => detected_set mode text (FORBIDDEN_WORDS self)
         | Some _ => ∅
         end) self,
      mkEnv (reached f) (trace env ++ map EvCall (fired f))),
     match failure f with
     | None => Returned (Py.lower text)
     | Some e => Raised e
     end).
Proof.
  unfold _process_partial_result_and_full_result.
  unfold bind at 1, modify_self at 1. cbn [fst snd].
  unfold bind at 1, get_self at 1. cbn [fst snd].
  unfold bind at 1. rewrite detection_loop_fire by done.
  change (FORBIDDEN_WORDS (set_detected_words ∅ self))
    with (FORBIDDEN_WORDS self).
  change (callbacks (set_detected_words ∅ self)) with (callbacks self).
  fold (matching mode text (FORBIDDEN_WORDS self)). cbv zeta.
  destruct (failure (fire _ _ _)); [reflexivity|].
  rewrite (left_id_L ∅ (∪)). unfold matching.
  fold (detected_set mode text (FORBIDDEN_WORDS self)).
  unfold bind, modify_self, ret. cbn [fst snd].
  case_bool_decide as Hempty; [by rewrite Hempty|].
  cbn [fst snd detected_words set_detected_words].
  by rewrite (left_id_L ∅ (∪)).
Qed.

End WithWorld.

End DetectionFacts.

(** ** The detection pass: matching rules, dispatch, reset *)
Module Detection.

Import Monitor DetectionFacts.
Local Open Scope monitor_scope.

Section WithWorld.

Context {World : Type}.
Implicit Types (self : Self World) (env : Env World).

(** C1, as the code has it. For every text and every non-empty trigger
    word of the vocabulary: after the detection pass the trigger is in
    the DetectedSet exactly when no action invoked during the pass
    raises and the rule of the mode holds: in Whole mode ("full"), the
    lowercased text between two spaces contains the trigger between two
    spaces; in Substring mode ("partial"), the lowercased text contains
    the trigger. The pass returns exactly when no invoked action
    raises; when one raises, nothing is detected. *)
Theorem detection_rule self env (text mode word : string) :
  word ∈ FORBIDDEN_WORDS self →
  word ≠ EmptyString →
  let pass := _process_partial_result_and_full_result text mode in
  let f :=
    fire (callbacks self) (matching mode text (FORBIDDEN_WORDS self))
         (world env) in
  (result pass (self, env) = Returned (Py.lower text) ↔ failure f = None)
  ∧ (word ∈ detected_words (fst (exec pass (self, env)))
     ↔ failure f = None
       ∧ ((mode = "full"
           ∧ ∃ pre post,
               " " +:+ Py.lower text +:+ " "
               = pre +:+ (" " +:+ word +:+ " ") +:+ post)
          ∨ (mode = "partial"
             ∧ ∃ pre post, Py.lower text = pre +:+ word +:+ post))).
Proof.
  intros Hword Hne pass f. subst pass f. unfold result, exec.
  rewrite process_fire. cbv zeta. cbn [fst snd].
  destruct (failure (fire _ _ _)) as [e|].
  - cbn [detected_words set_detected_words]. split; [by split|].
    split; [by intros ?%not_elem_of_empty|by intros [? _]].
  - cbn [detected_words set_detected_words]. split; [by split|].
    rewrite elem_of_detected_set, detects_spec, <- !PyFacts.str_in_spec.
    tauto.
Qed.

(** C2, as the code has it. When the action of a matching trigger word
    raises, in the world left by the actions of the matching words met
    before it, the error propagates out of the detection pass: the
    actions of the matching words met before have been invoked, the
    failing action is the last one invoked (no action of a word met
    after it is), its effect on the world stays, and the DetectedSet
    is left empty. *)
Theorem callback_error_stops_pass self env (text mode : string)
    (pre : list string) (word : string) (post : list string)
    (callback : Action World) (e : exn) :
  FORBIDDEN_WORDS self = pre ++ word :: post →
  detects mode (Py.lower text) word = true →
  callbacks self !! word = Some callback →
  let before :=
    fire (callbacks self) (matching mode text pre) (world env) in
  failure before = None →
  snd (callback (reached before)) = Some e →
  _process_partial_result_and_full_result text mode (self, env)
  = ((set_detected_words ∅ self,
      mkEnv (fst (callback (reached before)))
            (trace env
             ++ map EvCall (called self mode (Py.lower text) pre)
             ++ [EvCall word])),
     Raised e).
Proof.
  intros Hwords Hd Hlk before Hbefore He.
  assert (Hfire :
            fire (callbacks self)
                 (matching mode text (FORBIDDEN_WORDS self)) (world env)
            = mkFiring (fst (callback (reached before)))
                       (called self mode (Py.lower text) pre ++ [word])
                       (Some e)).
  { rewrite Hwords. unfold matching. rewrite List.filter_app.
    cbn [List.filter]. rewrite Hd, fire_app.
    fold (matching mode text pre). fold before. rewrite Hbefore.
    cbn [fire]. rewrite Hlk, He. cbn [reached fired failure].
    subst before. unfold matching in *. by rewrite fire_returns. }
  rewrite process_fire. cbv zeta. rewrite Hfire.
  cbn [reached fired failure]. by rewrite map_app.
Qed.

(** C3, as the code has it. A detection pass changes no attribute of
    the monitor other than [detected_words], but matching and dispatch
    are one loop: the pass invokes the actions of the matching words,
    in the order of the vocabulary and each on the world the one
    before left, up to the first that raises. When none raises, the
    pass returns the lowercased text, the DetectedSet is the set of
    the matching words (a function of the text, the mode and the
    vocabulary) and the action of every detected word that has one
    was invoked; when one raises, the pass raises its error and the
    DetectedSet is empty. *)
Theorem detection_pass_frame self env (text mode : string) :
  let pass := _process_partial_result_and_full_result text mode in
  let f :=
    fire (callbacks self) (matching mode text (FORBIDDEN_WORDS self))
         (world env) in
  fst (exec pass (self, env))
  = set_detected_words (detected_words (fst (exec pass (self, env)))) self
  ∧ snd (exec pass (self, env))
    = mkEnv (reached f) (trace env ++ map EvCall (fired f))
  ∧ match failure f with
    | None =>
        result pass (self, env) = Returned (Py.lower text)
        ∧ detected_words (fst (exec pass (self, env)))
          = detected_set mode text (FORBIDDEN_WORDS self)
        ∧ fired f = dispatched self mode text
    | Some e =>
        result pass (self, env) = Raised e
        ∧ detected_words (fst (exec pass (self, env))) = ∅
    end.
Proof.
  intros pass f. subst pass. unfold result, exec.
  rewrite process_fire. cbv zeta. fold f. cbn [fst snd].
  split; [reflexivity|]. split; [reflexivity|].
  destruct (failure f) as [e|] eqn:Hf; [by split|].
  split; [reflexivity|]. split; [reflexivity|].
  by apply fire_returns.
Qed.

(** C4, as the code has it. The pass does not depend on the words
    detected before: it does the same whatever [detected_words] held.
    When the same text is processed twice in a row, the second pass
    invokes the actions of the matching words again, on the world the
    first pass left; when no invoked action raises in either pass, the
    two passes detect the same set, the set of the matching words, and
    invoke the same actions; when an action raises in a pass, that
    pass detects nothing. *)
Theorem detection_independent_of_previous self env (text mode : string) :
  let pass := _process_partial_result_and_full_result text mode in
  let words := matching mode text (FORBIDDEN_WORDS self) in
  let f1 := fire (callbacks self) words (world env) in
  let f2 := fire (callbacks self) words (reached f1) in
  (∀ dw, pass (set_detected_words dw self, env) = pass (self, env))
  ∧ detected_words (fst (exec pass (self, env)))
    = match failure f1 with
      | None => detected_set mode text (FORBIDDEN_WORDS self)
      | Some _ => ∅
      end
  ∧ detected_words (fst (exec pass (exec pass (self, env))))
    = match failure f2 with
      | None => detected_set mode text (FORBIDDEN_WORDS self)
      | Some _ => ∅
      end
  ∧ snd (exec pass (exec pass (self, env)))
    = mkEnv (reached f2)
            (trace env ++ map EvCall (fired f1) ++ map EvCall (fired f2))
  ∧ (failure f1 = None →
     failure f2 = None →
     detected_words (fst (exec pass (exec pass (self, env))))
     = detected_words (fst (exec pass (self, env)))
     ∧ fired f1 = dispatched self mode text
     ∧ fired f2 = dispatched self mode text).
Proof.
  intros pass words f1 f2. subst pass.
  assert (Hsecond :
            ∀ dw w tr,
              _process_partial_result_and_full_result text mode
                (set_detected_words dw self, mkEnv w tr)
              = ((set_detected_words
                    (match failure (fire (callbacks self) words w) with
                     | None =>
                         detected_set mode text (FORBIDDEN_WORDS self)
                     | Some _ => ∅
                     end) self,
                  mkEnv (reached (fire (callbacks self) words w))
                        (tr ++ map EvCall
                                 (fired (fire (callbacks self) words w)))),
                 match failure (fire (callbacks self) words w) with
                 | None => Returned (Py.lower text)
                 | Some e => Raised e
                 end)).
  { intros dw w tr. by rewrite process_fire. }
  split.
  { intros dw. destruct env as [w tr]. rewrite Hsecond.
    by rewrite process_fire. }
  unfold exec. rewrite process_fire. cbv zeta. fold words. fold f1.
  cbn [fst snd]. rewrite Hsecond. fold f2. cbn [fst snd].
  cbn [detected_words set_detected_words].
  split; [reflexivity|]. split; [reflexivity|].
  split; [by rewrite <- app_assoc|].
  intros Hf1 Hf2. rewrite Hf1, Hf2. split; [reflexivity|].
  subst f1 f2 words. unfold matching in *.
  by rewrite !fire_returns.
Qed.

(** C7. An empty trigger word is never in the DetectedSet, whatever
    the text and the mode, and its callback, if it has one, is not
    called. On the empty text the pass returns the
    empty line with an empty DetectedSet and leaves the environment
    as it is (no callback is called); and a turn of the loop on a
    finalized result with empty text, in either mode, appends one
    empty line to [audio_list], prints it and calls no callback. *)
Theorem empty_trigger_and_empty_text self env (mode : string) :
  (∀ text,
     EmptyString
     ∉ detected_words
         (fst (exec (_process_partial_result_and_full_result text mode)
                    (self, env))))
  ∧ (∀ text,
       ∃ words,
         trace (snd (exec (_process_partial_result_and_full_result text mode)
                          (self, env)))
         = trace env ++ map EvCall words
         ∧ EmptyString ∉ words)
  ∧ _process_partial_result_and_full_result EmptyString mode (self, env)
    = ((set_detected_words ∅ self, env), Returned EmptyString)
  ∧ (∀ current_line,
       loop_body "full" (Final (Some EmptyString)) current_line
                 (self, env)
       = ((set_audio_list (audio_list self ++ [EmptyString])
             (set_detected_words ∅ self),
           mkEnv (world env) (trace env ++ [EvPrint EmptyString])),
          Returned EmptyString))
  ∧ (∀ current_line,
       loop_body "partial" (Final (Some EmptyString)) current_line
                 (self, env)
       = ((set_audio_list (audio_list self ++ [EmptyString])
             (set_detected_words ∅ self),
           mkEnv (world env) (trace env ++ [EvPrint EmptyString])),
          Returned EmptyString)).
Proof.
  split; [|split; [|split; [|split]]].
  - intros text. unfold exec.
    destruct (process_cases text mode self env) as (st' & r & Heq).
    rewrite Heq. cbn [fst snd]. apply process_spec in Heq.
    destruct r as [line|e].
    + destruct Heq as (_ & -> & _). simpl.
      rewrite elem_of_detected_set, detects_spec. tauto.
    + destruct Heq as (-> & _). simpl. apply not_elem_of_empty.
  - intros text.
    destruct (pass_calls_matching text mode self env)
      as (words & Htr & Hwords).
    exists words. split; [exact Htr|]. intros Hin%Hwords.
    by apply detects_spec in Hin as [? _].
  - apply process_empty_text.
  - intros current_line. unfold loop_body. simpl.
    unfold bind at 1. unfold bind at 1.
    by rewrite process_empty_text.
  - intros current_line. unfold loop_body. simpl.
    unfold bind at 1. unfold bind at 1. unfold ret at 1.
    by rewrite process_empty_text.
Qed.

End WithWorld.

(** The example of C1, through the rule: with the vocabulary
    [{"right"}], the text "rightful" detects nothing in Whole mode and
    detects "right" in Substring mode. *)
Lemma detection_rule_witness :
  let whole :=
    _process_partial_result_and_full_result "rightful" "full" in
  let substring :=
    _process_partial_result_and_full_result "rightful" "partial" in
  ("right" ∈ FORBIDDEN_WORDS Main.monitor_right ∧ "right" ≠ EmptyString)
  ∧ ("right"
     ∉ detected_words (fst (exec whole (Main.monitor_right, Main.env0))))
  ∧ ("right"
     ∈ detected_words
         (fst (exec substring (Main.monitor_right, Main.env0)))).
Proof.
  assert (Hin : "right" ∈ FORBIDDEN_WORDS Main.monitor_right)
    by (vm_compute; constructor).
  assert (Hne : "right" ≠ EmptyString) by discriminate.
  intros whole substring. split; [by split|]. split.
  - intros Hdet.
    pose proof (detection_rule Main.monitor_right Main.env0
                  "rightful" "full" "right" Hin Hne) as Hrule.
    cbv zeta in Hrule. destruct Hrule as [_ Hrule].
    apply Hrule in Hdet as [_ [[_ Hocc]|[Hmode _]]];
      [|discriminate Hmode].
    apply PyFacts.str_in_spec in Hocc. vm_compute in Hocc.
    discriminate Hocc.
  - pose proof (detection_rule Main.monitor_right Main.env0
                  "rightful" "partial" "right" Hin Hne) as Hrule.
    cbv zeta in Hrule. destruct Hrule as [_ Hrule].
    apply Hrule. split; [vm_compute; reflexivity|].
    right. split; [reflexivity|]. by exists EmptyString, "ful".
Defined.

(** C1 fails on the code: in the text "attack drink" the trigger
    "drink" stands between spaces, but the action of "attack", met
    before it, raises, and "drink" is not detected, in Whole mode and in
    Substring mode. *)
Lemma matching_trigger_not_detected :
  let whole :=
    _process_partial_result_and_full_result "attack drink" "full" in
  let substring :=
    _process_partial_result_and_full_result "attack drink" "partial" in
  ("drink" ∈ FORBIDDEN_WORDS Main.monitor_failing_attack)
  ∧ "drink" ≠ EmptyString
  ∧ " " +:+ Py.lower "attack drink" +:+ " "
    = " attack" +:+ (" " +:+ "drink" +:+ " ") +:+ EmptyString
  ∧ Py.lower "attack drink" = "attack " +:+ "drink" +:+ EmptyString
  ∧ ("drink"
     ∉ detected_words
         (fst (exec whole (Main.monitor_failing_attack, Main.env0))))
  ∧ ("drink"
     ∉ detected_words
         (fst (exec substring (Main.monitor_failing_attack, Main.env0)))).
Proof.
  intros whole substring.
  split; [apply list_elem_of_In; vm_compute; tauto|].
  split; [discriminate|]. split; [reflexivity|]. split; [reflexivity|].
  split; vm_compute; discriminate.
Qed.

(** C2 fails on the code: "attack" and "drink" both match the text and
    both have a callback; the one of "attack" raises, and the one of
    "drink" is not called. *)
Lemma callback_error_skips_sibling :
  let pass :=
    _process_partial_result_and_full_result "attack drink" "full" in
  detects "full" "attack drink" "attack" = true
  ∧ detects "full" "attack drink" "drink" = true
  ∧ is_some (callbacks Main.monitor_failing_attack !! "attack") = true
  ∧ is_some (callbacks Main.monitor_failing_attack !! "drink") = true
  ∧ result pass (Main.monitor_failing_attack, Main.env0)
    = Raised (Exception "boom")
  ∧ (EvCall "drink"
     ∉ trace (snd (exec pass (Main.monitor_failing_attack, Main.env0)))).
Proof.
  repeat split; [vm_compute; reflexivity..|].
  vm_compute. intros Hin. inversion Hin as [|? ? ? Hnil]; subst.
  inversion Hnil.
Qed.

(** The monitor of the counterexample, through the theorem: "attack"
    is met after seven words that do not match; its callback raises,
    the pass raises the same error, "attack" is the only call and
    nothing is detected. *)
Lemma callback_error_stops_pass_witness :
  let pre :=
    ["forward"; "backward"; "left"; "right"; "roll"; "dash"; "matrix"] in
  let post :=
    ["drink"; "heal"; "potion"; "lock"; "enemy"; "run"; "stop"] in
  let before :=
    fire (callbacks Main.monitor_failing_attack)
         (matching "full" "attack drink" pre) (world Main.env0) in
  (FORBIDDEN_WORDS Main.monitor_failing_attack = pre ++ "attack" :: post
   ∧ detects "full" (Py.lower "attack drink") "attack" = true
   ∧ callbacks Main.monitor_failing_attack !! "attack"
     = Some (Main.failing (Exception "boom"))
   ∧ failure before = None
   ∧ snd (Main.failing (Exception "boom") (reached before))
     = Some (Exception "boom"))
  ∧ _process_partial_result_and_full_result "attack drink" "full"
      (Main.monitor_failing_attack, Main.env0)
    = ((set_detected_words ∅ Main.monitor_failing_attack,
        mkEnv [] [EvCall "attack"]),
       Raised (Exception "boom")).
Proof.
  intros pre post before.
  assert (Hwords : FORBIDDEN_WORDS Main.monitor_failing_attack
                   = pre ++ "attack" :: post) by reflexivity.
  assert (Hd : detects "full" (Py.lower "attack drink") "attack" = true)
    by reflexivity.
  assert (Hlk : callbacks Main.monitor_failing_attack !! "attack"
                = Some (Main.failing (Exception "boom")))
    by (vm_compute; reflexivity).
  assert (Hbefore : failure before = None) by reflexivity.
  assert (He : snd (Main.failing (Exception "boom") (reached before))
               = Some (Exception "boom")) by reflexivity.
  split; [by repeat split|].
  exact (callback_error_stops_pass Main.monitor_failing_attack Main.env0
           "attack drink" "full" pre "attack" post
           (Main.failing (Exception "boom")) (Exception "boom")
           Hwords Hd Hlk Hbefore He).
Defined.

(** C3 fails on the code: the detection pass on "turn right" calls the
    callback registered for "right", which sends its key events. *)
Lemma detection_pass_calls_callback :
  let pass :=
    _process_partial_result_and_full_result "turn right" "full" in
  trace (snd (exec pass (Main.monitor_right, Main.env0)))
  = [EvCall "right"]
  ∧ world (snd (exec pass (Main.monitor_right, Main.env0)))
    = Main.hold "d" 3000%N
  ∧ snd (exec pass (Main.monitor_right, Main.env0)) ≠ Main.env0.
Proof.
  repeat split; [vm_compute; reflexivity..|].
  vm_compute. discriminate.
Qed.

(** Two passes on "run LEFT" with the callbacks of the [__main__]
    block, none of which raises: both detect the matching words, and
    the keys of "left" are sent twice. *)
Lemma detection_independent_of_previous_witness :
  let pass :=
    _process_partial_result_and_full_result "run LEFT" "full" in
  let words := matching "full" "run LEFT" (FORBIDDEN_WORDS Main.monitor) in
  let f1 := fire (callbacks Main.monitor) words (world Main.env0) in
  let f2 := fire (callbacks Main.monitor) words (reached f1) in
  (failure f1 = None ∧ failure f2 = None)
  ∧ (detected_words (fst (exec pass (exec pass (Main.monitor, Main.env0))))
     = detected_words (fst (exec pass (Main.monitor, Main.env0)))
     ∧ fired f1 = dispatched Main.monitor "full" "run LEFT"
     ∧ fired f2 = dispatched Main.monitor "full" "run LEFT")
  ∧ snd (exec pass (exec pass (Main.monitor, Main.env0)))
    = mkEnv (Main.hold "a" 3000%N ++ Main.hold "a" 3000%N)
            [EvCall "left"; EvCall "left"].
Proof.
  intros pass words f1 f2.
  assert (Hf1 : failure f1 = None) by reflexivity.
  assert (Hf2 : failure f2 = None) by reflexivity.
  pose proof (detection_independent_of_previous Main.monitor Main.env0
                "run LEFT" "full") as Hthm.
  cbv zeta in Hthm. destruct Hthm as (_ & _ & _ & Henv & Hsame).
  split; [by split|]. split; [exact (Hsame Hf1 Hf2)|].
  etrans; [exact Henv|vm_compute; reflexivity].
Defined.

(** C4 fails on the code: an action may work once and fail when it is
    invoked again. The first pass on "run" detects "run"; the second
    pass on the same text, on the same monitor, raises and detects
    nothing. *)
Lemma second_pass_detects_nothing :
  let pass := _process_partial_result_and_full_result "run" "partial" in
  let st1 := exec pass (Main.monitor_run_once, Main.env0) in
  result pass (Main.monitor_run_once, Main.env0) = Returned "run"
  ∧ ("run" ∈ detected_words (fst st1))
  ∧ result pass st1 = Raised (Exception "busy")
  ∧ ("run" ∉ detected_words (fst (exec pass st1))).
Proof.
  intros pass st1.
  split; [vm_compute; reflexivity|]. split; [vm_compute; reflexivity|].
  split; [vm_compute; reflexivity|]. vm_compute. discriminate.
Qed.

End Detection.

(** ** The annotated line printed by [_info] *)
Module Annotation.

Import Monitor.

Local Arguments Py.str_in : simpl never.
Local Arguments Py.replace : simpl never.

Section WithWorld.

Context {World : Type}.
Implicit Types (self : Self World).

(** The in-place loop over the tokens amounts to annotating each token
    on its own. *)
Lemma info_loop_map self (mode : string) (todo : list string) :
  ∀ done : list string,
    info_loop self mode (length done) todo (done ++ todo)
    = done ++ map (annotate_token self mode) todo.
Proof.
  induction todo as [|word todo IH]; intros done; [reflexivity|].
  simpl. fold (annotate_token self mode word).
  replace (match
             highlight self mode (FORBIDDEN_WORDS self) word
                       (Py.lower word)
           with
           | Some w => <[length done:=w]> (done ++ word :: todo)
           | None => done ++ word :: todo
           end)
    with ((done ++ [annotate_token self mode word]) ++ todo).
  - replace (S (length done))
      with (length (done ++ [annotate_token self mode word]))
      by (rewrite length_app; simpl; lia).
    rewrite IH. by rewrite <- app_assoc.
  - unfold annotate_token. rewrite <- app_assoc. simpl.
    destruct (highlight _ _ _ _ _) as [w|]; [|done].
    rewrite insert_app_r_alt by lia. by rewrite Nat.sub_diag.
Qed.

Lemma info_line_map self (text mode : string) :
  info_line self text mode
  = Py.join " " (map (annotate_token self mode) (Py.split text)).
Proof.
  unfold info_line. f_equal.
  exact (info_loop_map self mode (Py.split text) []).
Qed.

(** In Whole mode the inner loop wraps the token exactly when some
    trigger word occurs in the lowercased token and is equal to it up
    to case. *)
Lemma highlight_full self (forbiddens : list string) (word : string) :
  highlight self "full" forbiddens word (Py.lower word)
  = if existsb
         (λ forbidden,
            Py.str_in forbidden (Py.lower word)
            && (Py.lower word =? Py.lower forbidden)%string)
         forbiddens
    then Some (wrapped self word) else None.
Proof.
  induction forbiddens as [|forbidden rest IH]; [reflexivity|].
  simpl. destruct (Py.str_in forbidden (Py.lower word)); [|exact IH].
  destruct (Py.lower word =? Py.lower forbidden)%string;
    [reflexivity|exact IH].
Qed.

(** Without a matching trigger word the inner loop assigns nothing. *)
Lemma highlight_no_match self (mode : string)
    (forbiddens : list string) (word : string) :
  (∀ forbidden,
     forbidden ∈ forbiddens → token_matches mode forbidden word = false) →
  highlight self mode forbiddens word (Py.lower word) = None.
Proof.
  induction forbiddens as [|forbidden rest IH]; intros Hno;
    [reflexivity|].
  pose proof (Hno forbidden ltac:(apply elem_of_cons; by left)) as Hf.
  assert (Hrest : highlight self mode rest word (Py.lower word) = None).
  { apply IH. intros f Hin. apply Hno, elem_of_cons. by right. }
  unfold token_matches in Hf. simpl.
  destruct (Py.str_in forbidden (Py.lower word)); [|exact Hrest].
  destruct (mode =? "full")%string, (mode =? "partial")%string,
    (Py.lower word =? Py.lower forbidden)%string;
    simpl in *; done.
Qed.

(** C8. With a vocabulary of lowercase words, Whole-mode annotation
    is the tokens of the text, in order and joined by single spaces,
    where a token is wrapped in the highlight markers exactly when it
    is equal, up to case, to some trigger word; every other token is
    left as it is. *)
Theorem whole_annotation self (text : string) :
  (∀ forbidden,
     forbidden ∈ FORBIDDEN_WORDS self → Py.lower forbidden = forbidden) →
  info_line self text "full"
  = Py.join " " (map (annotate_whole self) (Py.split text)).
Proof.
  intros Hlower. rewrite info_line_map. f_equal.
  apply map_ext. intros word.
  unfold annotate_token, annotate_whole. rewrite highlight_full.
  replace (existsb _ (FORBIDDEN_WORDS self))
    with (existsb
            (λ forbidden, (Py.lower word =? Py.lower forbidden)%string)
            (FORBIDDEN_WORDS self)); [by destruct (existsb _ _)|].
  revert Hlower. generalize (FORBIDDEN_WORDS self) as forbiddens.
  induction forbiddens as [|forbidden rest IH]; intros Hlower;
    [reflexivity|].
  simpl. rewrite IH
    by (intros f Hin; apply Hlower, elem_of_cons; by right).
  f_equal.
  destruct (String.eqb_spec (Py.lower word) (Py.lower forbidden))
    as [Heq|]; [|by rewrite andb_false_r].
  rewrite Heq, Hlower by (apply elem_of_cons; by left).
  by rewrite PyFacts.str_in_refl.
Qed.

(** C9. When no token of the text matches a trigger word under the
    mode, the printed line is the tokens of the text joined by single
    spaces: the text with each run of whitespace turned into one
    space (and none at the ends); it has the same tokens as the
    text. *)
Theorem annotation_identity self (text mode : string) :
  (∀ word forbidden,
     word ∈ Py.split text →
     forbidden ∈ FORBIDDEN_WORDS self →
     token_matches mode forbidden word = false) →
  info_line self text mode = Py.join " " (Py.split text)
  ∧ Py.split (info_line self text mode) = Py.split text.
Proof.
  intros Hno.
  assert (Hline : info_line self text mode
                  = Py.join " " (Py.split text)).
  { rewrite info_line_map. f_equal.
    rewrite <- (map_id (Py.split text)) at 2.
    apply map_ext_in. intros word Hin%list_elem_of_In.
    unfold annotate_token.
    rewrite highlight_no_match; [done|]. intros f Hf. by apply Hno. }
  split; [exact Hline|].
  rewrite Hline. apply PyFacts.split_join_split.
Qed.

End WithWorld.

(** The example of C8: with the vocabulary [{"left", "right"}], only the
    token "left" of "turn left now" is wrapped. *)
Lemma whole_annotation_witness :
  (∀ forbidden,
     forbidden ∈ FORBIDDEN_WORDS Main.monitor_left_right →
     Py.lower forbidden = forbidden)
  ∧ info_line Main.monitor_left_right "turn left now" "full"
    = "turn " +:+ Main.warning_text +:+ "left" +:+ Main.reset_text
      +:+ " now".
Proof.
  assert (Hlower : ∀ forbidden,
             forbidden ∈ FORBIDDEN_WORDS Main.monitor_left_right →
             Py.lower forbidden = forbidden).
  { intros f Hf. vm_compute in Hf.
    apply elem_of_cons in Hf as [->|Hf]; [reflexivity|].
    apply elem_of_cons in Hf as [->|Hf]; [reflexivity|].
    by apply elem_of_nil in Hf. }
  split; [exact Hlower|].
  rewrite (whole_annotation Main.monitor_left_right "turn left now" Hlower).
  vm_compute. reflexivity.
Defined.

Lemma annotation_identity_witness :
  (∀ word forbidden,
     word ∈ Py.split "  stand   still " →
     forbidden ∈ FORBIDDEN_WORDS Main.monitor_left_right →
     token_matches "partial" forbidden word = false)
  ∧ info_line Main.monitor_left_right "  stand   still " "partial"
    = "stand still"
  ∧ Py.split (info_line Main.monitor_left_right "  stand   still "
                "partial")
    = ["stand"; "still"].
Proof.
  assert (Hno : ∀ word forbidden,
             word ∈ Py.split "  stand   still " →
             forbidden ∈ FORBIDDEN_WORDS Main.monitor_left_right →
             token_matches "partial" forbidden word = false).
  { intros word f Hword Hf. vm_compute in Hword, Hf.
    apply elem_of_cons in Hf as [->|Hf];
      [|apply elem_of_cons in Hf as [->|Hf];
        [|by apply elem_of_nil in Hf]];
      (apply elem_of_cons in Hword as [->|Hword];
       [|apply elem_of_cons in Hword as [->|Hword];
         [|by apply elem_of_nil in Hword]]);
      vm_compute; reflexivity. }
  split; [exact Hno|].
  exact (annotation_identity Main.monitor_left_right "  stand   still "
           "partial" Hno).
Defined.

End Annotation.

(** ** The monitor loop: start, history, exit *)
Module Loop.

Import Monitor DetectionFacts.
Local Open Scope monitor_scope.

Local Arguments Py.str_in : simpl never.

Section WithWorld.

Context {World : Type}.
Implicit Types (self : Self World) (env : Env World).

Lemma initialize_ok self env :
  initialize_audio_stream InitOk (self, env)
  = ((acquire self, mkEnv (world env) (trace env ++ init_events)),
     Returned tt).
Proof.
  unfold initialize_audio_stream, try_except, bind, emit, modify_self.
  simpl. by rewrite <- !app_assoc.
Qed.

Lemma ready_acquire self : ready (acquire self) = true.
Proof. reflexivity. Qed.

Lemma mode_test_invalid (mode : string) :
  mode ≠ "full" → mode ≠ "partial" →
  negb ((mode =? "full")%string || (mode =? "partial")%string) = true.
Proof. by intros ->%String.eqb_neq ->%String.eqb_neq. Qed.

Lemma mode_test_valid (mode : string) :
  mode = "full" ∨ mode = "partial" →
  negb ((mode =? "full")%string || (mode =? "partial")%string) = false.
Proof. by intros [-> | ->]. Qed.

(** The start of [monitor_speech], up to the mode test, when the
    monitor holds its resources or acquires them. *)
Lemma monitor_speech_start self env (mode : string)
    (ib : init_behaviour) (chunks : list chunk) (stop : exn) :
  ready self = true ∨ ib = InitOk →
  ∃ self0 env0,
    self0 = (if ready self then self else acquire self)
    ∧ env0 = mkEnv (world env)
               (trace env ++ if ready self then [] else init_events)
    ∧ ready self0 = true
    ∧ monitor_speech mode ib chunks stop (self, env)
      = ((if negb ((mode =? "full")%string
                   || (mode =? "partial")%string)
          then raise (invalid_mode mode)
          else ret tt) ;;
         print
           "Listening for forbidden words -> mode... (Press Ctrl+C to stop)"
         ;;
         try_finally
           (try_except
              (loop mode chunks stop EmptyString)
              (λ e, match e with
                    | KeyboardInterrupt =>
                        Some (print (String "010" "Stopping..."))
                    | _ =>
                        if is_Exception e
                        then Some (print ("Error during processing: "
                                          +:+ str_exn e))
                        else None
                    end))
           cleanup) (self0, env0).
Proof.
  intros Hstart. eexists _, _. split; [reflexivity|].
  split; [reflexivity|].
  unfold monitor_speech. unfold bind at 1, get_self at 1. simpl fst.
  fold (ready self). destruct (ready self) eqn:Hready.
  - split; [done|]. simpl negb. cbv iota.
    unfold bind at 1, ret at 1. rewrite app_nil_r. by destruct env.
  - destruct Hstart as [? | ->]; [done|]. split; [done|].
    simpl negb. cbv iota. unfold bind at 1.
    by rewrite initialize_ok.
Qed.

Lemma monitor_speech_invalid_started self env (mode : string)
    (ib : init_behaviour) (chunks : list chunk) (stop : exn) :
  mode ≠ "full" → mode ≠ "partial" →
  ready self = true ∨ ib = InitOk →
  monitor_speech mode ib chunks stop (self, env)
  = ((if ready self then self else acquire self,
      mkEnv (world env)
            (trace env ++ if ready self then [] else init_events)),
     Raised (invalid_mode mode)).
Proof.
  intros Hfull Hpartial Hstart.
  destruct (monitor_speech_start self env mode ib chunks stop Hstart)
    as (self0 & env0 & -> & -> & _ & ->).
  unfold bind at 1. by rewrite mode_test_invalid.
Qed.

(** Whatever [initialize_audio_stream] does, its events are those of
    the acquisition and, when it fails, its message. *)
Lemma initialize_cases (ib : init_behaviour) self env :
  ∃ st' r evs,
    initialize_audio_stream ib (self, env) = (st', r)
    ∧ world (snd st') = world env
    ∧ trace (snd st') = trace env ++ evs
    ∧ (∀ ev, ev ∈ evs → ev ∈ init_events ∨ ∃ line, ev = EvPrint line)
    ∧ audio_list (fst st') = audio_list self.
Proof.
  destruct ib as [|e|e|e|e]; [|destruct e..];
    unfold initialize_audio_stream, try_except, bind, emit,
      modify_self, print, raise; simpl;
    eexists _, _, _; (split; [reflexivity|]); cbn [fst snd world trace];
    (split; [reflexivity|]);
    (split;
     [first [by rewrite <- ?app_assoc | symmetry; apply app_nil_r]|]);
    (split; [|reflexivity]);
    intros ev; unfold init_events; cbn [app];
    rewrite ?elem_of_cons, ?elem_of_nil; intros Hev;
    repeat (destruct Hev as [->|Hev]; [eauto 10|]); destruct Hev.
Qed.

(** Whatever the acquisition does, a mode that is neither "full" nor
    "partial" makes [monitor_speech] raise, and the events of the
    call are those of the acquisition (and its failure message): the
    stream is not read and no callback is called. *)
Lemma invalid_mode_never_reads self env (mode : string)
    (ib : init_behaviour) (chunks : list chunk) (stop : exn) :
  mode ≠ "full" → mode ≠ "partial" →
  ∃ st' e evs,
    monitor_speech mode ib chunks stop (self, env) = (st', Raised e)
    ∧ world (snd st') = world env
    ∧ trace (snd st') = trace env ++ evs
    ∧ (∀ ev, ev ∈ evs → ev ∈ init_events ∨ ∃ line, ev = EvPrint line)
    ∧ audio_list (fst st') = audio_list self.
Proof.
  intros Hfull Hpartial. destruct (ready self) eqn:Hready.
  - rewrite monitor_speech_invalid_started by auto. rewrite Hready.
    eexists _, _, []. split; [reflexivity|]. cbn [fst snd world trace].
    repeat split. by intros ev Hin%elem_of_nil.
  - unfold monitor_speech. unfold bind at 1, get_self at 1. simpl fst.
    fold (ready self). rewrite Hready. simpl negb. cbv iota.
    unfold bind at 1.
    destruct (initialize_cases ib self env)
      as (st1 & r1 & evs & -> & Hworld & Htrace & Hevs & Hlist).
    destruct r1 as [[]|e].
    + unfold bind at 1. rewrite mode_test_invalid by done.
      by exists st1, (invalid_mode mode), evs.
    + by exists st1, e, evs.
Qed.

Lemma loop_body_text (mode text current_line : string)
    (st : State World) :
  mode = "full" ∨ mode = "partial" →
  loop_body mode (Final (Some text)) current_line st
  = (let* line := _process_partial_result_and_full_result text mode in
     modify_self (λ s, set_audio_list (audio_list s ++ [line]) s) ;;
     _info line mode ;;
     ret line) st.
Proof.
  intros [-> | ->]; unfold loop_body;
    [change (Py.str_in "full" "full") with true;
     change (Py.str_in "full" "partial") with false
    |change (Py.str_in "partial" "full") with false;
     change (Py.str_in "partial" "partial") with true];
    cbv iota; unfold bind, ret;
    by destruct (_process_partial_result_and_full_result _ _ st)
      as [st1 [line|e]].
Qed.

Lemma set_detected_words_id self :
  set_detected_words (detected_words self) self = self.
Proof. by destruct self. Qed.

(** One turn of the loop, in a mode the monitor accepts: it changes
    [detected_words] and [audio_list] only, releases nothing, and
    either returns the next line after appending it (for a finalized
    result) or raises what a callback raised. *)
Lemma loop_body_spec (mode : string) (c : chunk) (cl : string)
    self env st' r :
  mode = "full" ∨ mode = "partial" →
  loop_body mode c cl (self, env) = (st', r) →
  ∃ dw evs,
    trace (snd st') = trace env ++ evs
    ∧ Forall (λ ev, is_release ev = false) evs
    ∧ match r with
      | Returned line =>
          line = next_line cl c
          ∧ fst st'
            = set_audio_list
                (audio_list self ++ if is_final c then [line] else [])
                (set_detected_words dw self)
      | Raised e =>
          fst st' = set_detected_words dw self
          ∧ ∃ w callback w0,
              callbacks self !! w = Some callback
              ∧ snd (callback w0) = Some e
      end.
Proof.
  intros Hmode. destruct c as [|[text|]].
  - intros [= <- <-]. exists (detected_words self), [].
    cbn [fst snd]. rewrite !app_nil_r, set_detected_words_id.
    repeat split; [constructor|]. by destruct self.
  - rewrite loop_body_text by done. unfold bind at 1.
    destruct (process_cases text mode self env) as (st1 & r1 & Heq).
    rewrite Heq. apply process_spec in Heq. destruct r1 as [line|e].
    + destruct Heq as (-> & Hself & Htr). destruct st1 as [self1 env1].
      cbn [fst snd] in *. subst self1.
      unfold bind, modify_self, _info, get_self, print, emit, ret.
      cbn [fst snd trace world]. intros [= <- <-].
      eexists _, _. cbn [fst snd trace]. rewrite Htr, <- app_assoc.
      split; [reflexivity|]. split; [|done].
      apply Forall_app. split; [|by repeat constructor].
      apply Forall_forall. by intros ev [w [<- _]]%list_elem_of_In%in_map_iff.
    + destruct Heq as (Hself & pre & w & post & callback & w0 & _ & _
                       & Hcb & He & Htr).
      intros [= <- <-]. eexists _, _. rewrite Htr.
      split; [reflexivity|]. split; [|eauto 6].
      apply Forall_app. split; [|by repeat constructor].
      apply Forall_forall. by intros ev [w' [<- _]]%list_elem_of_In%in_map_iff.
  - unfold loop_body, bind, modify_self, _info, get_self, print, emit,
      ret. cbn [fst snd trace world]. intros [= <- <-].
    exists (detected_words self), [EvPrint (info_line
      (set_audio_list (audio_list self ++ [cl]) self) cl mode)].
    cbn [fst snd trace]. rewrite set_detected_words_id.
    repeat split. by repeat constructor.
Qed.

Lemma history_lines_cons (cl : string) (c : chunk)
    (chunks : list chunk) :
  history_lines cl (c :: chunks)
  = (if is_final c then [next_line cl c] else [])
    ++ history_lines (next_line cl c) chunks.
Proof. by destruct c as [|[text|]]. Qed.

Lemma history_lines_length (cl : string) (chunks : list chunk) :
  length (history_lines cl chunks) = length (List.filter is_final chunks).
Proof.
  revert cl. induction chunks as [|c chunks IH]; intros cl; [done|].
  rewrite history_lines_cons, length_app, IH.
  by destruct c as [|[text|]].
Qed.

(** The [while True] loop, in a mode the monitor accepts: it ends by
    an exception, changes [detected_words] and [audio_list] only and
    releases nothing; when no callback raises, the exception is the
    one of the last [stream.read] and [audio_list] has one more line
    for each finalized result. *)
Lemma loop_spec (mode : string) (stop : exn) (chunks : list chunk) :
  mode = "full" ∨ mode = "partial" →
  ∀ (cl : string) self env st' r,
    loop mode chunks stop cl (self, env) = (st', r) →
    ∃ e dw al evs,
      r = Raised e
      ∧ fst st' = set_audio_list al (set_detected_words dw self)
      ∧ trace (snd st') = trace env ++ evs
      ∧ Forall (λ ev, is_release ev = false) evs
      ∧ (callbacks_return self →
         e = stop ∧ al = audio_list self ++ history_lines cl chunks).
Proof.
  intros Hmode. induction chunks as [|c chunks IH];
    intros cl self env st' r.
  - intros [= <- <-].
    exists stop, (detected_words self), (audio_list self), [].
    cbn [fst snd history_lines]. rewrite !app_nil_r.
    rewrite set_detected_words_id.
    repeat split; [by destruct self|constructor].
  - cbn [loop]. unfold bind at 1, emit at 1. cbn [fst snd].
    unfold bind at 1.
    destruct (loop_body mode c cl _) as [st1 r1] eqn:Hbody.
    apply loop_body_spec in Hbody as (dw1 & evs1 & Htr1 & Hevs1 & Hr1);
      [|done].
    cbn [trace] in Htr1. destruct r1 as [line|e].
    + destruct Hr1 as [-> Hself1]. destruct st1 as [self1 env1].
      cbn [fst snd] in *. intros Hloop.
      apply IH in Hloop
        as (e & dw & al & evs & -> & Hself & Htr & Hevs & Hret).
      exists e, dw, al, ([EvRead] ++ evs1 ++ evs).
      split; [done|]. split; [by rewrite Hself, Hself1|]. split.
      { rewrite Htr, Htr1. by rewrite <- !app_assoc. }
      split.
      { apply Forall_app. split; [by repeat constructor|].
        by apply Forall_app. }
      intros Hcb. destruct Hret as [-> ->].
      { intros w callback w0 Hlk. apply (Hcb w callback w0).
        by rewrite Hself1 in Hlk. }
      split; [done|]. rewrite Hself1, history_lines_cons.
      cbn [audio_list set_audio_list]. by rewrite <- app_assoc.
    + destruct Hr1 as (Hself1 & w & callback & w0 & Hlk & He).
      intros [= <- <-]. exists e, dw1, (audio_list self),
        ([EvRead] ++ evs1).
      split; [done|]. split.
      { rewrite Hself1. by destruct self. }
      split; [by rewrite Htr1, <- app_assoc|]. split.
      { apply Forall_app. split; [by repeat constructor|done]. }
      intros Hcb. specialize (Hcb w callback w0 Hlk). congruence.
Qed.

(** [monitor_speech] in a mode it accepts, once the monitor holds its
    resources: the loop runs and ends by an exception [e]; the
    matching [except] clause prints its message, [cleanup] releases
    the stream and the device, and the call returns when [e] is
    caught and raises [e] otherwise. *)
Lemma monitor_speech_valid self env (mode : string)
    (ib : init_behaviour) (chunks : list chunk) (stop : exn) :
  mode = "full" ∨ mode = "partial" →
  ready self = true ∨ ib = InitOk →
  ∃ e dw al evs w',
    monitor_speech mode ib chunks stop (self, env)
    = ((set_audio_list al
          (set_detected_words dw
             (if ready self then self else acquire self)),
        mkEnv w'
          (trace env ++ evs ++ handler_events e ++ release_events)),
       if caught e then Returned tt else Raised e)
    ∧ Forall (λ ev, is_release ev = false) evs
    ∧ (callbacks_return self →
       e = stop ∧ al = audio_list self ++ history_lines EmptyString chunks).
Proof.
  intros Hmode Hstart.
  destruct (monitor_speech_start self env mode ib chunks stop Hstart)
    as (self0 & env0 & Hself0 & Henv0 & Hready0 & ->).
  unfold bind at 1. rewrite mode_test_valid by done.
  unfold ret at 1. unfold bind at 1, print at 1, emit at 1.
  cbn [fst snd]. unfold try_finally, try_except.
  destruct (loop mode chunks stop EmptyString _) as [st1 r1] eqn:Hloop.
  apply loop_spec in Hloop
    as (e & dw & al & evs & -> & Hself1 & Htr1 & Hevs & Hret); [|done].
  destruct st1 as [self1 env1]. cbn [fst snd trace] in *.
  assert (Hs : is_some (stream self1) = true
               ∧ is_some (mic self1) = true).
  { rewrite Hself1. cbn [stream mic set_audio_list set_detected_words].
    unfold ready in Hready0.
    by apply andb_true_iff in Hready0 as [[_ ?]%andb_true_iff ?]. }
  destruct Hs as [Hstream Hmic].
  set (listening :=
         EvPrint
           "Listening for forbidden words -> mode... (Press Ctrl+C to stop)")
    in *.
  exists e, dw, al,
    ((if ready self then [] else init_events) ++ [listening] ++ evs),
    (world env1).
  split.
  - assert (Hclean : ∀ env2 r2,
               (let (st'', o) := cleanup (self1, env2) in
                match o with
                | Returned _ => (st'', r2)
                | Raised e0 => (st'', Raised e0)
                end)
               = ((self1, mkEnv (world env2)
                            (trace env2 ++ release_events)),
                  r2 : outcome unit)).
    { intros env2 r2. unfold cleanup, bind, get_self, emit, ret.
      cbn [fst snd]. rewrite Hstream, Hmic. cbn [fst snd trace world].
      by rewrite <- !app_assoc. }
    subst self0 env0. rewrite Hself1.
    destruct e as [|msg|msg|msg]; cbn [caught handler_events is_Exception];
      unfold print, emit; cbn [fst snd];
      rewrite <- ?Hself1, Hclean; cbn [fst snd trace world];
      rewrite ?Htr1, ?Hself1, <- ?app_assoc; cbn [trace];
      rewrite <- ?app_assoc; reflexivity.
  - split.
    + apply Forall_app. split; [by destruct (ready self);
                                   repeat constructor|].
      apply Forall_app. split; [by repeat constructor|done].
    + intros Hcb. destruct Hret as [-> ->]; [|by subst self0;
                                               destruct (ready self)].
      intros w callback w0 Hlk. apply (Hcb w callback w0).
      subst self0. by destruct (ready self).
Qed.

(** C5. When the monitor holds its resources or acquires them, a mode
    that is neither "full" nor "partial" makes [monitor_speech] raise
    the [ValueError] of the mode test. The only events of the call
    are those of the acquisition: the stream is not read, the loop is
    not entered (nothing is printed, no callback is called), and
    [audio_list] is left as it is. *)
Theorem invalid_mode_rejected self env (mode : string)
    (ib : init_behaviour) (chunks : list chunk) (stop : exn) :
  mode ≠ "full" →
  mode ≠ "partial" →
  ready self = true ∨ ib = InitOk →
  let run := monitor_speech mode ib chunks stop in
  result run (self, env) = Raised (invalid_mode mode)
  ∧ trace (snd (exec run (self, env)))
    = trace env ++ (if ready self then [] else init_events)
  ∧ audio_list (fst (exec run (self, env))) = audio_list self.
Proof.
  intros Hfull Hpartial Hstart run. subst run. unfold result, exec.
  rewrite monitor_speech_invalid_started by done. cbn [fst snd].
  repeat split. by destruct (ready self).
Qed.

(** With a mode it does not know, a monitor that had to acquire its
    resources keeps them: the [ValueError] leaves the stream and the
    device in the object and no release event follows the acquisition. *)
Lemma invalid_mode_keeps_resources self env (mode : string)
    (chunks : list chunk) (stop : exn) :
  mode ≠ "full" →
  mode ≠ "partial" →
  ready self = false →
  let st' := exec (monitor_speech mode InitOk chunks stop) (self, env) in
  stream (fst st') = Some Handle
  ∧ mic (fst st') = Some Handle
  ∧ trace (snd st') = trace env ++ init_events
  ∧ List.filter is_release init_events = [].
Proof.
  intros Hfull Hpartial Hready st'. subst st'. unfold exec.
  rewrite monitor_speech_invalid_started by auto. by rewrite Hready.
Qed.

(** On every exit from the loop (an interrupt, a read error, an
    error raised by a callback, caught or not), the stream and the
    device are released once, as the last events of the call. *)
Lemma loop_exit_releases_once self env (mode : string)
    (ib : init_behaviour) (chunks : list chunk) (stop : exn) :
  mode = "full" ∨ mode = "partial" →
  ready self = true ∨ ib = InitOk →
  ∃ evs,
    trace (snd (exec (monitor_speech mode ib chunks stop) (self, env)))
    = trace env ++ evs ++ release_events
    ∧ Forall (λ ev, is_release ev = false) evs.
Proof.
  intros Hmode Hstart. unfold exec.
  destruct (monitor_speech_valid self env mode ib chunks stop
              Hmode Hstart)
    as (e & dw & al & evs & w' & -> & Hevs & _).
  exists (evs ++ handler_events e). cbn [fst snd trace].
  split; [by rewrite <- app_assoc|].
  apply Forall_app. split; [done|].
  destruct e; cbn; by repeat constructor.
Qed.

(** [cleanup] changes nothing in the object and returns. *)
Lemma cleanup_object (st : State World) :
  ∃ env', cleanup st = ((fst st, env'), Returned tt).
Proof.
  destruct st as [self env]. unfold cleanup, bind, get_self, emit, ret.
  cbn [fst snd].
  destruct (is_some (stream self)), (is_some (mic self)); cbn [fst snd];
    by eexists.
Qed.

Lemma completed_prefix (cbs : gmap string (Action World))
    (mode : string) (vocabulary : list string) (chunks : list chunk) :
  ∀ w, ∃ rest, chunks = completed cbs mode vocabulary chunks w ++ rest.
Proof.
  induction chunks as [|c chunks IH]; intros w; [by exists []|].
  destruct c as [|[text|]]; cbn [completed].
  - destruct (IH w) as [rest Hrest]. exists rest. cbn [app]. congruence.
  - destruct (failure _); [by eexists|].
    destruct (IH (reached (fire cbs (matching mode text vocabulary) w)))
      as [rest Hrest].
    exists rest. cbn [app]. congruence.
  - destruct (IH w) as [rest Hrest]. exists rest. cbn [app]. congruence.
Qed.

Lemma completed_callbacks_return self (mode : string)
    (vocabulary : list string) (chunks : list chunk) :
  callbacks_return self →
  ∀ w, completed (callbacks self) mode vocabulary chunks w = chunks.
Proof.
  intros Hcb. induction chunks as [|c chunks IH]; intros w; [reflexivity|].
  destruct c as [|[text|]]; cbn [completed];
    rewrite ?fire_callbacks_return by done; by rewrite IH.
Qed.

(** The History after the loop: one line for each finalized result
    among those the run gets through. *)
Lemma loop_completed (mode : string) (stop : exn) (chunks : list chunk) :
  mode = "full" ∨ mode = "partial" →
  ∀ (cl : string) self env,
    audio_list (fst (fst (loop mode chunks stop cl (self, env))))
    = audio_list self
      ++ history_lines cl
           (completed (callbacks self) mode (FORBIDDEN_WORDS self) chunks
                      (world env)).
Proof.
  intros Hmode. induction chunks as [|c chunks IH]; intros cl self env.
  - cbn. by rewrite app_nil_r.
  - cbn [loop]. unfold bind at 1, emit at 1. cbn [fst snd].
    unfold bind at 1. destruct c as [|[text|]].
    + cbn [loop_body completed history_lines]. unfold ret at 1.
      by rewrite IH.
    + rewrite loop_body_text by done. unfold bind at 1.
      rewrite process_fire. cbv zeta. cbn [world trace completed].
      destruct (failure (fire _ _ _)) as [e|].
      * cbn [fst history_lines audio_list set_detected_words].
        by rewrite app_nil_r.
      * cbv [bind modify_self _info get_self print emit ret].
        cbn [fst snd].
        rewrite IH.
        cbn [audio_list callbacks FORBIDDEN_WORDS set_audio_list
               set_detected_words world history_lines].
        by rewrite <- app_assoc.
    + cbn [loop_body completed history_lines].
      cbv [bind modify_self _info get_self print emit ret]. cbn [fst snd].
      rewrite IH.
      cbn [audio_list callbacks FORBIDDEN_WORDS set_audio_list world].
      by rewrite <- app_assoc.
Qed.

(** C10, as the code has it. In a mode the monitor accepts, once it
    holds its resources, a run of [monitor_speech] appends to
    [audio_list] one line for each finalized result it gets through,
    in order: the lowercased text of the result or, when the result
    has no text, the line before it (the empty string at the start).
    The run gets through the results up to the first finalized result
    with text during whose detection pass an invoked action raises:
    that result and those after it append nothing. So the History
    grows by the number of finalized results the run gets through,
    which is the number of all finalized results when no callback
    raises. *)
Theorem history_one_line_per_final self env (mode : string)
    (ib : init_behaviour) (chunks : list chunk) (stop : exn) :
  mode = "full" ∨ mode = "partial" →
  ready self = true ∨ ib = InitOk →
  let through :=
    completed (callbacks self) mode (FORBIDDEN_WORDS self) chunks
              (world env) in
  audio_list (fst (exec (monitor_speech mode ib chunks stop) (self, env)))
  = audio_list self ++ history_lines EmptyString through
  ∧ length (history_lines EmptyString through)
    = length (List.filter is_final through)
  ∧ (∃ rest, chunks = through ++ rest)
  ∧ (callbacks_return self → through = chunks).
Proof.
  intros Hmode Hstart through.
  split; [|split; [apply history_lines_length|split;
                   [apply completed_prefix
                   |intros Hcb; by apply completed_callbacks_return]]].
  unfold exec.
  destruct (monitor_speech_start self env mode ib chunks stop Hstart)
    as (self0 & env0 & Hself0 & Henv0 & _ & ->).
  unfold bind at 1. rewrite mode_test_valid by done.
  unfold ret at 1. unfold bind at 1, print at 1, emit at 1.
  cbn [fst snd]. unfold try_finally, try_except.
  match goal with
  | |- context [loop mode chunks stop EmptyString (self0, ?env1)] =>
      pose proof (loop_completed mode stop chunks Hmode EmptyString
                    self0 env1) as Hlines;
      destruct (loop mode chunks stop EmptyString (self0, env1))
        as [st1 r1] eqn:Hloop
  end.
  cbn [fst snd world] in Hlines.
  assert (Hsame : audio_list self0 = audio_list self
                  ∧ callbacks self0 = callbacks self
                  ∧ FORBIDDEN_WORDS self0 = FORBIDDEN_WORDS self
                  ∧ world env0 = world env)
    by (subst self0 env0; by destruct (ready self)).
  destruct Hsame as (Hal & Hcb & Hfw & Hw).
  rewrite Hal, Hcb, Hfw, Hw in Hlines. fold through in Hlines.
  rewrite <- Hlines. destruct st1 as [self1 env1].
  apply loop_spec in Hloop as (e & _ & _ & _ & -> & _); [|done].
  destruct e as [|msg|msg|msg]; cbn [is_Exception];
    unfold print, emit; cbn [fst snd];
    match goal with
    | |- context [cleanup ?st] =>
        destruct (cleanup_object st) as [env' ->]
    end; reflexivity.
Qed.

(** Registering a callback that returns keeps the callbacks
    returning. *)
Lemma callbacks_return_register self env (word : string)
    (callback : Action World) :
  callbacks_return self →
  (∀ w, snd (callback w) = None) →
  callbacks_return
    (fst (exec (register_callback word callback) (self, env))).
Proof.
  intros Hcb Hret w cb w0. cbn.
  intros [[_ <-]|[_ Hlk]]%lookup_insert_Some; [apply Hret|].
  by apply (Hcb w cb w0).
Qed.

End WithWorld.

Lemma invalid_mode_rejected_witness :
  let run :=
    monitor_speech "strict" InitOk [Final (Some "go left")]
                   KeyboardInterrupt in
  ("strict" ≠ "full" ∧ "strict" ≠ "partial"
   ∧ (ready Main.monitor = true ∨ InitOk = InitOk))
  ∧ result run (Main.monitor, Main.env0)
    = Raised (ValueError "Invalid mode: strict. Use 'full', 'partial'")
  ∧ trace (snd (exec run (Main.monitor, Main.env0)))
    = [EvModel; EvRecognizer; EvPyAudio; EvOpen]
  ∧ audio_list (fst (exec run (Main.monitor, Main.env0))) = [].
Proof.
  intros run.
  assert (Hfull : "strict" ≠ "full") by discriminate.
  assert (Hpartial : "strict" ≠ "partial") by discriminate.
  assert (Hstart : ready Main.monitor = true ∨ InitOk = InitOk)
    by (right; reflexivity).
  split; [done|].
  exact (invalid_mode_rejected Main.monitor Main.env0 "strict" InitOk
           [Final (Some "go left")] KeyboardInterrupt
           Hfull Hpartial Hstart).
Defined.

(** C6 fails on the code: started with a mode it does not know, a fresh
    monitor acquires the stream and the device, raises the [ValueError]
    and keeps them: there is no release event in the call. *)
Lemma invalid_mode_skips_cleanup :
  let run :=
    monitor_speech "strict" InitOk [Final (Some "go left")]
                   KeyboardInterrupt in
  let st' := exec run (Main.monitor, Main.env0) in
  stream Main.monitor = None
  ∧ mic Main.monitor = None
  ∧ result run (Main.monitor, Main.env0) = Raised (invalid_mode "strict")
  ∧ stream (fst st') = Some Handle
  ∧ mic (fst st') = Some Handle
  ∧ trace (snd st') = [EvModel; EvRecognizer; EvPyAudio; EvOpen]
  ∧ List.filter is_release (trace (snd st')) = [].
Proof. repeat split; vm_compute; reflexivity. Qed.

Lemma callbacks_return_register_all
    (regs : list (string * Action Main.Keyboard)) :
  ∀ self env,
    callbacks_return self →
    Forall (λ reg, ∀ w, snd (snd reg w) = None) regs →
    callbacks_return (fst (exec (Main.register_all regs) (self, env))).
Proof.
  induction regs as [|[word callback] regs IH]; intros self env Hcb Hall;
    [exact Hcb|].
  inversion Hall as [|? ? Hret Hrest]; subst.
  change (exec (Main.register_all ((word, callback) :: regs)) (self, env))
    with (exec (Main.register_all regs)
            (exec (register_callback word callback) (self, env))).
  change (exec (register_callback word callback) (self, env))
    with (fst (exec (register_callback word callback) (self, env)), env).
  apply IH; [|done]. by apply callbacks_return_register.
Qed.

(** The callbacks of the [__main__] block return. *)
Lemma main_callbacks_return : callbacks_return Main.monitor.
Proof.
  apply callbacks_return_register_all.
  - intros w callback w0 Hlk.
    unfold Main.new_monitor, SpeechMonitor in Hlk. cbn [callbacks] in Hlk.
    by rewrite lookup_empty in Hlk.
  - repeat constructor.
Qed.

(** A run over three finalized results and one chunk without result,
    with a callback for "attack" that raises: the run gets through the
    first two results and the History has their two lines; the result
    "attack" and the one after it leave no line. *)
Lemma history_one_line_per_final_witness :
  let chunks :=
    [Final (Some "go Left"); NoResult; Final None; Final (Some "Attack");
     Final (Some "drink")] in
  let run := monitor_speech "full" InitOk chunks KeyboardInterrupt in
  let through :=
    completed (callbacks Main.monitor_failing_attack) "full"
              (FORBIDDEN_WORDS Main.monitor_failing_attack) chunks
              (world Main.env0) in
  (("full" = "full" ∨ "full" = "partial")
   ∧ (ready Main.monitor_failing_attack = true ∨ InitOk = InitOk))
  ∧ through = [Final (Some "go Left"); NoResult; Final None]
  ∧ audio_list (fst (exec run (Main.monitor_failing_attack, Main.env0)))
    = audio_list Main.monitor_failing_attack
      ++ history_lines EmptyString through
  ∧ history_lines EmptyString through = ["go left"; "go left"]
  ∧ length (history_lines EmptyString through)
    = length (List.filter is_final through)
  ∧ (∃ rest, chunks = through ++ rest).
Proof.
  intros chunks run through.
  assert (Hmode : "full" = "full" ∨ "full" = "partial")
    by (left; reflexivity).
  assert (Hstart : ready Main.monitor_failing_attack = true
                   ∨ InitOk = InitOk) by (right; reflexivity).
  pose proof (history_one_line_per_final Main.monitor_failing_attack
                Main.env0 "full" InitOk chunks KeyboardInterrupt
                Hmode Hstart) as Hthm.
  cbv zeta in Hthm. destruct Hthm as (Hlist & Hlen & Hrest & _).
  split; [by split|]. split; [reflexivity|]. split; [exact Hlist|].
  split; [reflexivity|]. split; [exact Hlen|exact Hrest].
Defined.

(** C10 fails on the code: the callback of "attack" raises during the
    pass on the one finalized result of the run; the run ends (the
    error is printed and the call returns) and the History is empty,
    for one finalized result. *)
Lemma raising_callback_appends_nothing :
  let chunks := [Final (Some "attack")] in
  let run := monitor_speech "full" InitOk chunks KeyboardInterrupt in
  length (List.filter is_final chunks) = 1
  ∧ result run (Main.monitor_failing_attack, Main.env0) = Returned tt
  ∧ audio_list (fst (exec run (Main.monitor_failing_attack, Main.env0)))
    = [].
Proof. repeat split; vm_compute; reflexivity. Qed.

End Loop.


(** ** More facts about the string primitives *)
Module PyMore.

Import Py PyFacts.

Local Arguments isspace : simpl never.

(** A string ending with [c] cut in two: the character is the end of the
    second part. *)
Lemma app_snoc_inv (b a : string) (c : ascii) (d : string) :
  a +:+ String c EmptyString = b +:+ d →
  d ≠ EmptyString →
  ∃ d', d = d' +:+ String c EmptyString ∧ a = b +:+ d'.
Proof.
  revert a. induction b as [|x b IH]; intros a Heq Hd.
  - exists a. by rewrite !app_nil_l in *.
  - destruct a as [|y a].
    + rewrite app_nil_l, app_cons in Heq. injection Heq as _ Heq.
      destruct b; [|discriminate Heq]. rewrite app_nil_l in Heq.
      by subst d.
    + rewrite !app_cons in Heq. injection Heq as -> Heq.
      destruct (IH a Heq Hd) as (d' & -> & ->).
      exists d'. by rewrite app_cons.
Qed.

Lemma drop_app_length (s t : string) : Props.drop (String.length s) (s +:+ t) = t.
Proof. induction s as [|c s IH]; [by destruct t|]. by rewrite app_cons. Qed.

Lemma drop_nil (k : nat) : Props.drop k EmptyString = EmptyString.
Proof. by destruct k. Qed.

(** Replacing [old] by itself: the scan gives back what it reads. *)
Lemma replace_go_same (old : string) :
  old ≠ EmptyString →
  ∀ (s : string) (k : nat), replace_go old old k s = Props.drop k s.
Proof.
  intros Hold. induction s as [|c s IH]; intros k.
  - by rewrite drop_nil.
  - destruct k as [|k]; [|apply IH].
    cbn [replace_go Props.drop].
    destruct (String.prefix old (String c s)) eqn:Hpre.
    + apply prefix_spec in Hpre as [post Hpost]. rewrite IH.
      destruct old as [|c' old]; [done|].
      rewrite app_cons in Hpost. injection Hpost as <- ->.
      cbn [String.length]. rewrite Nat.sub_succ, Nat.sub_0_r.
      by rewrite drop_app_length, app_cons.
    + by rewrite IH.
Qed.

Lemma intersperse_empty (s : string) : intersperse EmptyString s = s.
Proof.
  induction s as [|c s IH]; [done|].
  cbn [intersperse]. by rewrite app_nil_l, IH.
Qed.

(** [s.replace(old, old)] is [s]. *)
Lemma replace_same (old s : string) : replace old old s = s.
Proof.
  destruct old as [|c old].
  - apply intersperse_empty.
  - unfold replace. by rewrite replace_go_same.
Qed.

(** Where [old] occurs, [s.replace(old, new)] contains [new]. *)
Lemma str_in_replace (old new s : string) :
  old ≠ EmptyString →
  str_in old s = true → str_in new (replace old new s) = true.
Proof.
  intros Hold. destruct old as [|c0 old]; [done|]. unfold replace.
  induction s as [|c s IH]; intros Hin.
  - by apply str_in_nil_inv in Hin.
  - rewrite str_in_cons in Hin. cbn [replace_go].
    destruct (String.prefix (String c0 old) (String c s)) eqn:Hpre.
    + apply str_in_spec. by exists EmptyString, (replace_go (String c0 old)
        new (String.length (String c0 old) - 1) s).
    + rewrite str_in_cons. apply orb_true_iff. right. by apply IH.
Qed.

Lemma lower_char_idemp (c : ascii) : lower_char (lower_char c) = lower_char c.
Proof. by destruct c as [[] [] [] [] [] [] [] []]. Qed.

(** Lowercasing twice is lowercasing once. *)
Lemma lower_idemp (s : string) : lower (lower s) = lower s.
Proof.
  induction s as [|c s IH]; [done|].
  cbn [lower]. by rewrite lower_char_idemp, IH.
Qed.

(** A token starts no later than the first character that is not
    whitespace: [split] of such a string is not empty. *)
Lemma split_cons_nonspace (c : ascii) (s : string) :
  isspace c = false → split (String c s) ≠ [].
Proof.
  intros Hc. destruct s as [|c' s].
  - by rewrite split_single.
  - rewrite split_cons_cons by done.
    by destruct (isspace c'), (split (String c' s)).
Qed.

(** [split] cuts at every whitespace character. *)
Lemma split_app_space (a : string) (c : ascii) (b : string) :
  isspace c = true →
  split (a +:+ String c b) = split a ++ split b.
Proof.
  intros Hc. induction a as [|x a IH].
  - by rewrite app_nil_l, split_cons_space.
  - rewrite app_cons. destruct (isspace x) eqn:Hx.
    + by rewrite !split_cons_space.
    + destruct a as [|y a].
      * rewrite app_nil_l, split_cons_cons, Hc, split_single by done.
        by rewrite split_cons_space.
      * rewrite app_cons in *. rewrite !split_cons_cons by done.
        destruct (isspace y) eqn:Hy; [by rewrite IH|].
        rewrite IH.
        pose proof (split_cons_nonspace y a Hy) as Hne.
        by destruct (split (String y a)).
Qed.

(** An occurrence of the padded word in the padded line is an occurrence
    of the word in the line, with a space or nothing on each side. *)
Lemma padded_occurrence (w cl : string) :
  str_in (" " +:+ w +:+ " ") (" " +:+ cl +:+ " ") = true →
  ∃ pre post,
    cl = pre +:+ w +:+ post
    ∧ (pre = EmptyString ∨ ∃ p, pre = p +:+ " ")
    ∧ (post = EmptyString ∨ ∃ q, post = " " +:+ q).
Proof.
  intros (pre0 & post0 & Heq)%str_in_spec.
  rewrite !app_cons, !app_nil_l, !app_assoc, !app_cons, !app_nil_l in Heq.
  assert (Hpost : ∀ a e,
             a +:+ " " = w +:+ String " " e →
             ∃ post, a = w +:+ post
                     ∧ (post = EmptyString ∨ ∃ q, post = " " +:+ q)).
  { intros a e Ha.
    destruct (app_snoc_inv w a " " (String " " e) Ha ltac:(done))
      as (d' & Hd' & ->).
    exists d'. split; [done|]. destruct d' as [|x d']; [by left|].
    right. exists d'. rewrite app_cons in Hd'. by injection Hd' as <- _. }
  destruct pre0 as [|x pre1].
  - rewrite app_nil_l in Heq. injection Heq as Heq.
    destruct (Hpost cl post0 Heq) as (post & -> & Hq).
    exists EmptyString, post. rewrite app_nil_l. auto.
  - rewrite app_cons in Heq. injection Heq as <- Heq.
    destruct (app_snoc_inv pre1 cl " " _ Heq ltac:(done))
      as (d' & Hd' & ->).
    destruct d' as [|y d'].
    { rewrite app_nil_l in Hd'. injection Hd' as Hd'. by destruct w. }
    rewrite app_cons in Hd'. injection Hd' as <- Hd'. symmetry in Hd'.
    destruct (Hpost d' post0 Hd') as (post & -> & Hq).
    exists (pre1 +:+ " "), post. rewrite !app_assoc, app_cons, app_nil_l.
    split; [done|]. split; [right; by exists pre1|done].
Qed.

(** A token that occurs in a line between spaces or the ends of the line
    is one of the tokens of the line. *)
Lemma token_in_split (w pre post : string) :
  is_token w = true →
  (pre = EmptyString ∨ ∃ p, pre = p +:+ " ") →
  (post = EmptyString ∨ ∃ q, post = " " +:+ q) →
  ∃ before after, split (pre +:+ w +:+ post) = before ++ w :: after.
Proof.
  intros Hw Hpre Hpost.
  assert (Hright : ∃ after, split (w +:+ post) = w :: after).
  { destruct Hpost as [->|[q ->]].
    - rewrite app_nil_r, split_token by done. by exists [].
    - rewrite app_cons, app_nil_l, split_token_app by done. by eexists. }
  destruct Hright as [after Hafter].
  destruct Hpre as [->|[p ->]].
  - exists [], after. by rewrite app_nil_l.
  - exists (split p), after.
    rewrite !app_assoc, app_cons, app_nil_l, split_app_space by done.
    by rewrite Hafter.
Qed.

End PyMore.


(** ** What every method keeps *)
Module Frame.

Import Monitor DetectionFacts Props.
Local Open Scope monitor_scope.

Section Keeps.

Context {World : Type} (I : State World → Prop).
Hypothesis HI : stable I.

Lemma keeps_ret {A} (a : A) : keeps I (ret a).
Proof. by intros st. Qed.

Lemma keeps_raise {A} (e : exn) : keeps I (raise (A:=A) e).
Proof. by intros st. Qed.

Lemma keeps_bind {A B} (m : M World A) (f : A → M World B) :
  keeps I m → (∀ a, keeps I (f a)) → keeps I (bind m f).
Proof.
  intros Hm Hf st Hst. unfold bind. specialize (Hm st Hst).
  destruct (m st) as [st' [a|e]]; [by apply Hf|done].
Qed.

Lemma keeps_get_self : keeps I get_self.
Proof. by intros st. Qed.

Lemma keeps_emit (ev : event) : keeps I (emit ev).
Proof. intros [self [w tr]] Hst. by apply (stable_emit I HI). Qed.

Lemma keeps_try_except {A} (body : M World A)
    (handlers : exn → option (M World A)) :
  keeps I body →
  (∀ e h, handlers e = Some h → keeps I h) →
  keeps I (try_except body handlers).
Proof.
  intros Hbody Hh st Hst. unfold try_except. specialize (Hbody st Hst).
  destruct (body st) as [st' [a|e]]; [done|].
  destruct (handlers e) as [h|] eqn:He; [|done]. by apply (Hh e h).
Qed.

Lemma keeps_try_finally {A} (body : M World A) (final : M World unit) :
  keeps I body → keeps I final → keeps I (try_finally body final).
Proof.
  intros Hbody Hfinal st Hst. unfold try_finally.
  specialize (Hbody st Hst). destruct (body st) as [st' r].
  specialize (Hfinal st' Hbody). by destruct (final st') as [st'' [[]|e]].
Qed.

Lemma keeps_execute_callbacks (word : string) :
  keeps I (_execute_callbacks word).
Proof.
  intros [self [w tr]] Hst.
  unfold _execute_callbacks, call, bind, get_self, emit, ret.
  cbn [fst snd world trace].
  destruct (callbacks self !! word) as [callback|] eqn:Hcb; [|done].
  cbn [fst snd world trace].
  destruct (callback w) as [w' r] eqn:Hcall. cbn [fst snd].
  replace w' with (fst (callback w)) by (by rewrite Hcall).
  apply (stable_call I HI _ _ _ word); [done|].
  by apply (stable_emit I HI).
Qed.

Lemma keeps_detection_body (cl mode word : string) (nd : gset string) :
  keeps I (detection_body cl mode word nd).
Proof.
  unfold detection_body.
  apply keeps_bind; [apply keeps_get_self|]. intros self.
  apply keeps_bind.
  - destruct (full_test _ _ _ _); [|apply keeps_ret].
    apply keeps_bind; [apply keeps_execute_callbacks|].
    intros _. apply keeps_ret.
  - intros nd1. apply keeps_bind; [apply keeps_get_self|]. intros self'.
    destruct (partial_test _ _ _ _); [|apply keeps_ret].
    apply keeps_bind; [apply keeps_execute_callbacks|].
    intros _. apply keeps_ret.
Qed.

Lemma keeps_detection_loop (cl mode : string) (words : list string) :
  ∀ nd, keeps I (detection_loop cl mode words nd).
Proof.
  induction words as [|word words IH]; intros nd; [apply keeps_ret|].
  cbn [detection_loop]. apply keeps_bind; [apply keeps_detection_body|].
  apply IH.
Qed.

Lemma keeps_set_detected (f : Self World → gset string) :
  keeps I (modify_self (λ s, set_detected_words (f s) s)).
Proof. intros [self env] Hst. by apply (stable_detected I HI). Qed.

Lemma keeps_process (text mode : string) :
  keeps I (_process_partial_result_and_full_result text mode).
Proof.
  unfold _process_partial_result_and_full_result.
  apply keeps_bind; [apply (keeps_set_detected (λ _, ∅))|]. intros _.
  apply keeps_bind; [apply keeps_get_self|]. intros self.
  apply keeps_bind; [apply keeps_detection_loop|]. intros nd.
  apply keeps_bind; [|intros _; apply keeps_ret].
  destruct (bool_decide _); [apply keeps_ret|].
  apply (keeps_set_detected (λ s, detected_words s ∪ nd)).
Qed.

Lemma keeps_info (line mode : string) : keeps I (_info line mode).
Proof.
  unfold _info. apply keeps_bind; [apply keeps_get_self|].
  intros self. apply keeps_emit.
Qed.

Lemma keeps_append (line : string) :
  keeps I (modify_self (λ s, set_audio_list (audio_list s ++ [line]) s)).
Proof. intros [self env] Hst. by apply (stable_append I HI). Qed.

Lemma keeps_loop_body (mode : string) (c : chunk) (cl : string) :
  keeps I (loop_body mode c cl).
Proof.
  destruct c as [|result]; [apply keeps_ret|]. unfold loop_body.
  apply keeps_bind.
  - destruct result as [text|]; [|apply keeps_ret].
    apply keeps_bind.
    + destruct (Py.str_in mode "full"); [apply keeps_process|apply keeps_ret].
    + intros line.
      destruct (Py.str_in mode "partial");
        [apply keeps_process|apply keeps_ret].
  - intros line. apply keeps_bind; [apply keeps_append|]. intros _.
    apply keeps_bind; [apply keeps_info|]. intros _. apply keeps_ret.
Qed.

Lemma keeps_loop (mode : string) (stop : exn) (chunks : list chunk) :
  ∀ cl, keeps I (loop mode chunks stop cl).
Proof.
  induction chunks as [|c chunks IH]; intros cl; [apply keeps_raise|].
  cbn [loop]. apply keeps_bind; [apply keeps_emit|]. intros _.
  apply keeps_bind; [apply keeps_loop_body|]. apply IH.
Qed.

Lemma keeps_cleanup : keeps I cleanup.
Proof.
  unfold cleanup. apply keeps_bind; [apply keeps_get_self|]. intros self.
  apply keeps_bind.
  - destruct (is_some (stream self)); [|apply keeps_ret].
    apply keeps_bind; [apply keeps_emit|]. intros _. apply keeps_emit.
  - intros _. destruct (is_some (mic self)); [apply keeps_emit|].
    apply keeps_ret.
Qed.

Lemma keeps_initialize (ib : init_behaviour) :
  keeps I (initialize_audio_stream ib).
Proof.
  unfold initialize_audio_stream. apply keeps_try_except.
  - apply keeps_bind;
      [destruct ib; first [apply keeps_raise|apply keeps_emit]|].
    intros _. apply keeps_bind;
      [destruct ib; first [apply keeps_raise|apply keeps_emit]|].
    intros _. apply keeps_bind.
    { intros [self env] Hst. by apply (stable_recognizer I HI). }
    intros _. apply keeps_bind;
      [destruct ib; first [apply keeps_raise|apply keeps_emit]|].
    intros _. apply keeps_bind.
    { intros [self env] Hst. by apply (stable_mic I HI). }
    intros _. apply keeps_bind;
      [destruct ib; first [apply keeps_raise|apply keeps_emit]|].
    intros _ [self env] Hst. by apply (stable_stream I HI).
  - intros e h. destruct (is_Exception e); [|done]. intros [= <-].
    apply keeps_bind; [apply keeps_emit|]. intros _. apply keeps_raise.
Qed.

(** Whatever the mode, the acquisition and the chunks, [monitor_speech]
    keeps every property that its steps keep. *)
Lemma keeps_monitor_speech (mode : string) (ib : init_behaviour)
    (chunks : list chunk) (stop : exn) :
  keeps I (monitor_speech mode ib chunks stop).
Proof.
  unfold monitor_speech. apply keeps_bind; [apply keeps_get_self|].
  intros self. apply keeps_bind.
  { destruct (negb _); [apply keeps_initialize|apply keeps_ret]. }
  intros _. apply keeps_bind.
  { destruct (negb _); [apply keeps_raise|apply keeps_ret]. }
  intros _. apply keeps_bind; [apply keeps_emit|]. intros _.
  apply keeps_try_finally; [|apply keeps_cleanup].
  apply keeps_try_except; [apply keeps_loop|].
  intros e h He. destruct e; cbn in He; try discriminate He;
    injection He as <-; apply keeps_emit.
Qed.

(** The part of [monitor_speech] that follows the acquisition. *)
Lemma keeps_after_start (mode : string) (chunks : list chunk) (stop : exn) :
  keeps I
    ((if negb ((mode =? "full")%string || (mode =? "partial")%string)
      then raise (invalid_mode mode)
      else ret tt) ;;
     print
       "Listening for forbidden words -> mode... (Press Ctrl+C to stop)"
     ;;
     try_finally
       (try_except
          (loop mode chunks stop EmptyString)
          (λ e, match e with
                | KeyboardInterrupt =>
                    Some (print (String "010" "Stopping..."))
                | _ =>
                    if is_Exception e
                    then Some (print ("Error during processing: "
                                      +:+ str_exn e))
                    else None
                end))
       cleanup).
Proof.
  apply keeps_bind.
  { destruct (negb _); [apply keeps_raise|apply keeps_ret]. }
  intros _. apply keeps_bind; [apply keeps_emit|]. intros _.
  apply keeps_try_finally; [|apply keeps_cleanup].
  apply keeps_try_except; [apply keeps_loop|].
  intros e h He. destruct e; cbn in He; try discriminate He;
    injection He as <-; apply keeps_emit.
Qed.

End Keeps.

(** Proves that a property is [stable]; the hypothesis is [H]. *)
Ltac stable_cases :=
  split;
  [ intros ? ? ? ? H | intros ? ? ? ? ? ? H | intros ? ? ? H
  | intros ? ? ? H | intros ? ? H | intros ? ? H | intros ? ? H ];
  cbn [fst snd world trace] in *.

End Frame.


(** ** Invariants of a run of the monitor *)
Module Invariants.

Import Monitor Props Frame.
Local Open Scope monitor_scope.

Section WithWorld.

Context {World : Type}.
Implicit Types (self : Self World) (env : Env World).

Lemma same_config_refl self : same_config self self.
Proof. by repeat split. Qed.

(** X1. A run of [monitor_speech], whatever its mode, its acquisition and
    its end, leaves the configuration of the monitor as it was: the model
    path, the rates, the vocabulary, the highlight markers and the
    registered callbacks. *)
Theorem monitor_speech_keeps_config self env (mode : string)
    (ib : init_behaviour) (chunks : list chunk) (stop : exn) :
  same_config self
    (fst (exec (monitor_speech mode ib chunks stop) (self, env))).
Proof.
  apply (keeps_monitor_speech (λ st, same_config self (fst st)));
    [|apply same_config_refl].
  stable_cases; exact H.
Qed.

(** X2. The History is only appended to: after a run of [monitor_speech],
    whatever its mode and however it ends, [audio_list] is the list it
    was followed by the lines of the run. *)
Theorem history_append_only self env (mode : string)
    (ib : init_behaviour) (chunks : list chunk) (stop : exn) :
  ∃ lines,
    audio_list (fst (exec (monitor_speech mode ib chunks stop) (self, env)))
    = audio_list self ++ lines.
Proof.
  apply (keeps_monitor_speech
           (λ st, ∃ lines, audio_list (fst st) = audio_list self ++ lines)).
  - stable_cases; try exact H.
    destruct H as [lines Hlines]. exists (lines ++ [line]).
    cbn [audio_list set_audio_list]. by rewrite Hlines, <- app_assoc.
  - exists []. by rewrite app_nil_r.
Qed.

(** X3. The monitor acts on the world of the callbacks only by calling
    registered callbacks: a property of that world that every registered
    callback keeps still holds after a run of [monitor_speech], whatever
    its mode and however it ends. *)
Theorem world_changes_only_by_callbacks (P : World → Prop) self env
    (mode : string) (ib : init_behaviour) (chunks : list chunk)
    (stop : exn) :
  callbacks_preserve P self →
  P (world env) →
  P (world (snd (exec (monitor_speech mode ib chunks stop) (self, env)))).
Proof.
  intros Hcb HP.
  apply (keeps_monitor_speech
           (λ st, callbacks (fst st) = callbacks self ∧ P (world (snd st))));
    [|done].
  stable_cases; try exact H.
  destruct H as [Hsame HPw]. split; [done|].
  eapply Hcb; [|done]. by rewrite <- Hsame.
Qed.

Lemma stable_ready :
  stable (λ st : State World, ready (fst st) = true).
Proof.
  stable_cases; try exact H; unfold ready in *;
    cbn [recognizer stream mic set_recognizer set_mic set_stream] in *;
    apply andb_true_iff in H as [[Hr Hs]%andb_true_iff Hm];
    by rewrite ?Hr, ?Hs, ?Hm.
Qed.

(** X4. [cleanup] releases the stream and the device but leaves the
    handles in the object: a monitor that held its resources, or acquired
    them, still counts as initialized after the run, so a later call of
    [monitor_speech] does not depend on what [initialize_audio_stream]
    would do (it is not called again). *)
Theorem monitor_stays_initialized self env (mode : string)
    (ib : init_behaviour) (chunks : list chunk) (stop : exn) :
  ready self = true ∨ ib = InitOk →
  let st1 := exec (monitor_speech mode ib chunks stop) (self, env) in
  ready (fst st1) = true
  ∧ ∀ mode2 ib2 ib2' chunks2 stop2,
      monitor_speech mode2 ib2 chunks2 stop2 st1
      = monitor_speech mode2 ib2' chunks2 stop2 st1.
Proof.
  intros Hstart st1.
  assert (Hready : ready (fst st1) = true).
  { subst st1. unfold exec.
    destruct (Loop.monitor_speech_start self env mode ib chunks stop Hstart)
      as (self0 & env0 & _ & _ & Hready0 & ->).
    by apply (keeps_after_start _ stable_ready). }
  split; [exact Hready|].
  intros mode2 ib2 ib2' chunks2 stop2. clearbody st1.
  destruct st1 as [self1 env1]. cbn [fst] in Hready.
  destruct (Loop.monitor_speech_start self1 env1 mode2 ib2 chunks2 stop2
              (or_introl Hready)) as (s0 & e0 & -> & -> & _ & ->).
  by destruct (Loop.monitor_speech_start self1 env1 mode2 ib2' chunks2
                 stop2 (or_introl Hready)) as (s0 & e0 & -> & -> & _ & ->).
Qed.

End WithWorld.

Lemma callbacks_preserve_register_all (P : Main.Keyboard → Prop)
    (regs : list (string * Action Main.Keyboard)) :
  ∀ self env,
    callbacks_preserve P self →
    Forall (λ reg, ∀ w, P w → P (fst (snd reg w))) regs →
    callbacks_preserve P (fst (exec (Main.register_all regs) (self, env))).
Proof.
  induction regs as [|[word callback] regs IH]; intros self env Hcb Hall;
    [exact Hcb|].
  inversion Hall as [|? ? Hreg Hrest]; subst.
  change (exec (Main.register_all ((word, callback) :: regs)) (self, env))
    with (exec (Main.register_all regs)
            (set_callbacks (<[word := callback]> (callbacks self)) self,
             env)).
  apply IH; [|done]. intros w cb w0. cbn [callbacks set_callbacks].
  intros [[_ <-]|[_ Hlk]]%lookup_insert_Some; [apply Hreg|].
  by apply (Hcb w cb w0).
Qed.

(** The callbacks of the [__main__] block use the keys of [main_keys]
    only. *)
Lemma main_callbacks_only_keys :
  callbacks_preserve (λ w, only_keys main_keys w = true) Main.monitor.
Proof.
  apply callbacks_preserve_register_all.
  - intros w callback w0 Hlk.
    unfold Main.new_monitor, SpeechMonitor in Hlk. cbn [callbacks] in Hlk.
    by rewrite lookup_empty in Hlk.
  - repeat constructor; intros w Hw; cbn [fst snd]; unfold only_keys;
      unfold Main.forward_callback, Main.backward_callback,
        Main.left_callback, Main.right_callback,
        Main.dash_forward_callback, Main.enter_callback,
        Main.attack_callback, Main.drink_callback, Main.lock_callback,
        Main.keys; cbn [fst];
      rewrite forallb_app; apply andb_true_iff; split;
      (exact Hw || reflexivity).
Qed.

Lemma world_changes_only_by_callbacks_witness :
  let run :=
    monitor_speech "full" InitOk
      [Final (Some "dash LEFT"); Final None; Final (Some "drink")]
      KeyboardInterrupt in
  (callbacks_preserve (λ w, only_keys main_keys w = true) Main.monitor
   ∧ only_keys main_keys (world Main.env0) = true)
  ∧ only_keys main_keys (world (snd (exec run (Main.monitor, Main.env0))))
    = true.
Proof.
  intros run. split; [split; [exact main_callbacks_only_keys|reflexivity]|].
  exact (world_changes_only_by_callbacks
           (λ w, only_keys main_keys w = true) Main.monitor Main.env0
           "full" InitOk
           [Final (Some "dash LEFT"); Final None; Final (Some "drink")]
           KeyboardInterrupt main_callbacks_only_keys eq_refl).
Defined.

Lemma monitor_stays_initialized_witness :
  let st1 :=
    exec (monitor_speech "partial" InitOk [Final (Some "stop")]
            (Exception "Stream closed"))
         (Main.monitor, Main.env0) in
  (ready Main.monitor = true ∨ InitOk = InitOk)
  ∧ ready (fst st1) = true
  ∧ ∀ mode2 ib2 ib2' chunks2 stop2,
      monitor_speech mode2 ib2 chunks2 stop2 st1
      = monitor_speech mode2 ib2' chunks2 stop2 st1.
Proof.
  intros st1.
  assert (Hstart : ready Main.monitor = true ∨ InitOk = InitOk)
    by (right; reflexivity).
  split; [exact Hstart|].
  exact (monitor_stays_initialized Main.monitor Main.env0 "partial" InitOk
           [Final (Some "stop")] (Exception "Stream closed") Hstart).
Defined.

End Invariants.


(** ** More on the detection pass and the registry *)
Module Dispatch.

Import Monitor DetectionFacts Props.
Local Open Scope monitor_scope.

Section WithWorld.

Context {World : Type}.
Implicit Types (self : Self World) (env : Env World).

Lemma called_sublist self (mode cl : string) (words : list string) :
  sublist (called self mode cl words) words.
Proof.
  induction words as [|w words IH]; [constructor|].
  rewrite called_cons. destruct (_ && _); by constructor.
Qed.

(** A word found between spaces is found. *)
Lemma detects_full_partial (cl word : string) :
  detects "full" cl word = true → detects "partial" cl word = true.
Proof.
  rewrite !detects_spec. intros [Hne [[_ Hin]|[Hmode _]]]; [|done].
  split; [done|]. right. split; [done|].
  apply PyMore.padded_occurrence in Hin as (pre & post & -> & _).
  apply PyFacts.str_in_spec. by exists pre, post.
Qed.

Lemma detects_occurs (mode cl word : string) :
  detects mode cl word = true → Py.str_in word cl = true.
Proof.
  intros Hd. destruct (detects_spec mode cl word) as [Hspec _].
  destruct (Hspec Hd) as [_ [[-> _]|[_ Hin]]]; [|done].
  apply detects_full_partial in Hd.
  apply detects_spec in Hd as [_ [[Hmode _]|[_ Hin]]]; done.
Qed.

(** The calls of a pass: a part of the vocabulary, in its order. *)
Lemma pass_calls_sublist (text mode : string) self env :
  ∃ words,
    trace (snd (exec (_process_partial_result_and_full_result text mode)
                     (self, env)))
    = trace env ++ map EvCall words
    ∧ sublist words (FORBIDDEN_WORDS self).
Proof.
  unfold exec.
  destruct (process_cases text mode self env) as (st' & r & Heq).
  rewrite Heq. cbn [fst snd]. apply process_spec in Heq.
  destruct r as [line|e].
  - destruct Heq as (_ & _ & ->). eexists. split; [reflexivity|].
    apply called_sublist.
  - destruct Heq as (_ & pre & w & post & callback & w0 & -> & _ & _ & _
                     & ->).
    exists (called self mode (Py.lower text) pre ++ [w]).
    split; [by rewrite map_app|].
    apply sublist_app; [apply called_sublist|].
    constructor. apply sublist_nil_l.
Qed.

(** X5. Whether the pass returns or raises, every word it leaves in the
    DetectedSet is a non-empty word of the vocabulary that occurs in the
    lowercased text. *)
Theorem detected_words_in_vocabulary self env (text mode word : string) :
  word ∈ detected_words
           (fst (exec (_process_partial_result_and_full_result text mode)
                      (self, env))) →
  word ∈ FORBIDDEN_WORDS self
  ∧ word ≠ EmptyString
  ∧ ∃ pre post, Py.lower text = pre +:+ word +:+ post.
Proof.
  unfold exec.
  destruct (process_cases text mode self env) as (st' & r & Heq).
  rewrite Heq. cbn [fst snd]. apply process_spec in Heq.
  destruct r as [line|e].
  - destruct Heq as (_ & -> & _). cbn [detected_words set_detected_words].
    intros [Hin Hd]%elem_of_detected_set. split; [done|].
    split; [by apply detects_spec in Hd as [? _]|].
    by apply PyFacts.str_in_spec, (detects_occurs mode).
  - destruct Heq as (-> & _). cbn [detected_words set_detected_words].
    by intros ?%not_elem_of_empty.
Qed.

(** X6. Whole mode detects no more than Substring mode: on the same text
    and the same monitor, every word that a pass in mode "full" leaves in
    the DetectedSet is left there by a pass in mode "partial" that
    returns. *)
Theorem whole_detection_is_substring_detection self env env'
    (text line : string) :
  result (_process_partial_result_and_full_result text "partial")
         (self, env')
  = Returned line →
  detected_words
    (fst (exec (_process_partial_result_and_full_result text "full")
               (self, env)))
  ⊆ detected_words
      (fst (exec (_process_partial_result_and_full_result text "partial")
                 (self, env'))).
Proof.
  unfold result, exec. intros Hret.
  destruct (process_cases text "partial" self env') as (stp & rp & Hp).
  destruct (process_cases text "full" self env) as (stf & rf & Hf).
  rewrite Hp in Hret. cbn [snd] in Hret. subst rp.
  rewrite Hp, Hf. cbn [fst].
  apply process_spec in Hp as (_ & -> & _). apply process_spec in Hf.
  cbn [detected_words set_detected_words].
  destruct rf as [linef|e].
  - destruct Hf as (_ & -> & _). cbn [detected_words set_detected_words].
    intros word [Hin Hd]%elem_of_detected_set.
    apply elem_of_detected_set. split; [done|].
    by apply detects_full_partial.
  - destruct Hf as (-> & _). cbn [detected_words set_detected_words].
    by intros word ?%not_elem_of_empty.
Qed.

(** X7. The callbacks a pass calls, whether it returns or raises, are
    callbacks of vocabulary words, called in the order of the vocabulary;
    as the vocabulary is a set, none is called twice in a pass, however
    often its word occurs in the text, and a callback registered for a
    word outside the vocabulary is never called. *)
Theorem pass_calls_each_callback_once self env (text mode : string) :
  NoDup (FORBIDDEN_WORDS self) →
  ∃ words,
    trace (snd (exec (_process_partial_result_and_full_result text mode)
                     (self, env)))
    = trace env ++ map EvCall words
    ∧ sublist words (FORBIDDEN_WORDS self)
    ∧ NoDup words
    ∧ ∀ word, word ∉ FORBIDDEN_WORDS self → word ∉ words.
Proof.
  intros Hnodup.
  destruct (pass_calls_sublist text mode self env) as (words & Htr & Hsub).
  exists words. split; [done|]. split; [done|].
  split; [by eapply sublist_NoDup|].
  intros word Hout Hin. apply Hout. by eapply elem_of_sublist.
Qed.

(** X8. When no word that matches the text has a callback (as on a
    monitor without callbacks), the pass returns the lowercased text,
    stores the DetectedSet and does nothing else: the environment is as
    it was. *)
Theorem pass_without_callbacks self env (text mode : string) :
  (∀ word,
     word ∈ FORBIDDEN_WORDS self →
     detects mode (Py.lower text) word = true →
     callbacks self !! word = None) →
  _process_partial_result_and_full_result text mode (self, env)
  = ((set_detected_words
        (detected_set mode text (FORBIDDEN_WORDS self)) self, env),
     Returned (Py.lower text)).
Proof.
  intros Hnone.
  assert (Hloop : ∀ words nd self0,
             detected_words self0 = ∅ →
             callbacks self0 = callbacks self →
             (∀ w, w ∈ words → w ∈ FORBIDDEN_WORDS self) →
             detection_loop (Py.lower text) mode words nd (self0, env)
             = ((self0, env),
                Returned
                  (nd ∪ list_to_set
                          (List.filter (detects mode (Py.lower text))
                                       words)))).
  { induction words as [|w words IH]; intros nd self0 Hdw Hcb Hin.
    - cbn. unfold ret. by rewrite (right_id_L ∅ (∪)).
    - cbn [detection_loop]. unfold bind.
      rewrite detection_body_spec by done. unfold body_outcome.
      cbn [List.filter].
      destruct (detects mode (Py.lower text) w) eqn:Hd.
      + rewrite Hcb, Hnone; [|apply Hin, elem_of_cons; by left|done].
        rewrite IH; [|done|done|].
        * cbn [list_to_set]. by rewrite (assoc_L (∪)).
        * intros w' Hw'. apply Hin, elem_of_cons. by right.
      + apply IH; [done|done|].
        intros w' Hw'. apply Hin, elem_of_cons. by right. }
  unfold _process_partial_result_and_full_result.
  unfold bind at 1, modify_self at 1. cbn [fst snd].
  unfold bind at 1, get_self at 1. cbn [fst snd].
  unfold bind at 1.
  rewrite Hloop; [|done|done|done].
  rewrite (left_id_L ∅ (∪)).
  change (FORBIDDEN_WORDS (set_detected_words ∅ self))
    with (FORBIDDEN_WORDS self).
  fold (detected_set mode text (FORBIDDEN_WORDS self)).
  unfold bind, modify_self, ret. cbn [fst snd].
  case_bool_decide as Hempty; [by rewrite Hempty|].
  cbn [fst snd detected_words set_detected_words].
  rewrite (left_id_L ∅ (∪)). reflexivity.
Qed.

(** X9. [register_callback] overwrites: after it, [_execute_callbacks]
    for the word calls the callback just registered, whatever was
    registered before, with the result of that callback; the callback of
    every other word is the one it was. *)
Theorem register_then_execute self env (word other : string)
    (callback : Action World) :
  other ≠ word →
  let st := exec (register_callback word callback) (self, env) in
  _execute_callbacks word st
  = ((fst st,
      mkEnv (fst (callback (world env))) (trace env ++ [EvCall word])),
     match snd (callback (world env)) with
     | None => Returned tt
     | Some e => Raised e
     end)
  ∧ callbacks (fst st) !! other = callbacks self !! other
  ∧ snd st = env.
Proof.
  intros Hother st. subst st. unfold exec, register_callback, modify_self.
  cbn [fst snd]. split; [|split; [|done]].
  - unfold _execute_callbacks, call, bind, get_self, emit. cbn [fst snd].
    cbn [callbacks set_callbacks]. rewrite lookup_insert_eq.
    cbn [fst snd world trace]. by destruct (callback (world env)) as [w' [e|]].
  - cbn [callbacks set_callbacks]. by rewrite lookup_insert_ne.
Qed.

End WithWorld.

Lemma detected_words_in_vocabulary_witness :
  let pass :=
    _process_partial_result_and_full_result "Go LEFT now" "full" in
  ("left" ∈ detected_words (fst (exec pass (Main.monitor, Main.env0))))
  ∧ ("left" ∈ FORBIDDEN_WORDS Main.monitor)
  ∧ "left" ≠ EmptyString
  ∧ ∃ pre post, Py.lower "Go LEFT now" = pre +:+ "left" +:+ post.
Proof.
  intros pass.
  assert (Hin : "left"
                ∈ detected_words (fst (exec pass (Main.monitor, Main.env0)))).
  { vm_compute. reflexivity. }
  split; [exact Hin|].
  exact (detected_words_in_vocabulary Main.monitor Main.env0
           "Go LEFT now" "full" "left" Hin).
Defined.

Lemma whole_detection_is_substring_detection_witness :
  let full := _process_partial_result_and_full_result "Running LEFT" "full" in
  let partial :=
    _process_partial_result_and_full_result "Running LEFT" "partial" in
  result partial (Main.monitor, Main.env0) = Returned "running left"
  ∧ detected_words (fst (exec full (Main.monitor, Main.env0)))
    ⊆ detected_words (fst (exec partial (Main.monitor, Main.env0))).
Proof.
  intros full partial.
  assert (Hret : result partial (Main.monitor, Main.env0)
                 = Returned "running left") by (vm_compute; reflexivity).
  split; [exact Hret|].
  exact (whole_detection_is_substring_detection Main.monitor Main.env0
           Main.env0 "Running LEFT" "running left" Hret).
Defined.

Lemma main_vocabulary_nodup : NoDup (FORBIDDEN_WORDS Main.monitor).
Proof.
  refine (bool_decide_unpack (NoDup _) _). vm_compute. exact I.
Qed.

Lemma pass_calls_each_callback_once_witness :
  let pass :=
    _process_partial_result_and_full_result "left left right left" "full" in
  NoDup (FORBIDDEN_WORDS Main.monitor)
  ∧ ∃ words,
      trace (snd (exec pass (Main.monitor, Main.env0)))
      = trace Main.env0 ++ map EvCall words
      ∧ sublist words (FORBIDDEN_WORDS Main.monitor)
      ∧ NoDup words
      ∧ ∀ word, word ∉ FORBIDDEN_WORDS Main.monitor → word ∉ words.
Proof.
  intros pass. split; [exact main_vocabulary_nodup|].
  exact (pass_calls_each_callback_once Main.monitor Main.env0
           "left left right left" "full" main_vocabulary_nodup).
Defined.

Lemma pass_without_callbacks_witness :
  let fresh := Main.new_monitor Main.forbidden_words in
  (∀ word,
     word ∈ FORBIDDEN_WORDS fresh →
     detects "partial" (Py.lower "Running LEFT") word = true →
     callbacks fresh !! word = None)
  ∧ _process_partial_result_and_full_result "Running LEFT" "partial"
      (fresh, Main.env0)
    = ((set_detected_words
          (detected_set "partial" "Running LEFT" (FORBIDDEN_WORDS fresh))
          fresh, Main.env0),
       Returned "running left").
Proof.
  intros fresh.
  assert (Hnone : ∀ word,
             word ∈ FORBIDDEN_WORDS fresh →
             detects "partial" (Py.lower "Running LEFT") word = true →
             callbacks fresh !! word = None).
  { intros word _ _. apply lookup_empty. }
  split; [exact Hnone|].
  exact (pass_without_callbacks fresh Main.env0 "Running LEFT" "partial"
           Hnone).
Defined.

Lemma register_then_execute_witness :
  let st :=
    exec (register_callback "attack" Main.drink_callback)
         (Main.monitor, Main.env0) in
  "drink" ≠ "attack"
  ∧ _execute_callbacks "attack" st
    = ((fst st,
        mkEnv (Main.hold "r" 200%N ++ [Main.Sleep 100%N])
              [EvCall "attack"]),
       Returned tt)
  ∧ callbacks (fst st) !! "drink" = callbacks Main.monitor !! "drink"
  ∧ snd st = Main.env0.
Proof.
  intros st.
  assert (Hne : "drink" ≠ "attack") by discriminate.
  split; [exact Hne|].
  exact (register_then_execute Main.monitor Main.env0 "attack" "drink"
           Main.drink_callback Hne).
Defined.

End Dispatch.


(** ** More on the printed line *)
Module Highlight.

Import Monitor Props.

Local Arguments Py.str_in : simpl never.
Local Arguments Py.replace : simpl never.

Section WithWorld.

Context {World : Type}.
Implicit Types (self : Self World).

(** In Substring mode the inner loop stops at the first trigger word that
    occurs in the lowercased token. *)
Lemma highlight_partial self (forbiddens : list string) (word : string) :
  highlight self "partial" forbiddens word (Py.lower word)
  = match
      List.find (λ forbidden, Py.str_in forbidden (Py.lower word)) forbiddens
    with
    | Some forbidden =>
        Some (Py.replace forbidden (wrapped self forbidden) word)
    | None => None
    end.
Proof.
  induction forbiddens as [|forbidden rest IH]; [reflexivity|].
  cbn [highlight List.find].
  destruct (Py.str_in forbidden (Py.lower word)); [|exact IH].
  by rewrite andb_false_r.
Qed.

(** X10. In Substring mode the printed line is the tokens of the text, in
    order and joined by single spaces, where in each token the
    occurrences of one trigger word are wrapped in the highlight markers:
    the first word of the vocabulary that occurs in the lowercased token.
    The other trigger words that occur in the token are not marked, and
    a token in which none occurs is left as it is. *)
Theorem substring_annotation self (text : string) :
  info_line self text "partial"
  = Py.join " " (map (annotate_substring self) (Py.split text)).
Proof.
  rewrite Annotation.info_line_map. f_equal. apply map_ext. intros word.
  unfold annotate_token, annotate_substring. rewrite highlight_partial.
  by destruct (List.find _ _).
Qed.

(** X11. Whole-mode detection and annotation agree on one-token triggers:
    when a lowercase trigger word without whitespace is found, between
    spaces, in the lowercased text, the line printed for that text has
    the trigger, wrapped in the highlight markers, as one of its items. *)
Theorem detected_token_is_highlighted self (text word : string) :
  word ∈ FORBIDDEN_WORDS self →
  Py.lower word = word →
  Py.is_token word = true →
  detects "full" (Py.lower text) word = true →
  ∃ before after,
    info_line self (Py.lower text) "full"
    = Py.join " " (before ++ wrapped self word :: after).
Proof.
  intros Hin Hlower Htoken Hd.
  apply DetectionFacts.detects_spec in Hd as [_ [[_ Hocc]|[Hmode _]]];
    [|discriminate Hmode].
  apply PyMore.padded_occurrence in Hocc as (pre & post & -> & Hpre & Hpost).
  destruct (PyMore.token_in_split word pre post Htoken Hpre Hpost)
    as (before & after & Hsplit).
  rewrite Annotation.info_line_map, Hsplit, map_app. cbn [map].
  exists (map (annotate_token self "full") before),
    (map (annotate_token self "full") after).
  do 3 f_equal. unfold annotate_token. rewrite Annotation.highlight_full.
  replace (existsb _ (FORBIDDEN_WORDS self)) with true; [done|].
  symmetry. apply existsb_exists. exists word.
  split; [by apply list_elem_of_In|].
  by rewrite !Hlower, PyFacts.str_in_refl, String.eqb_refl.
Qed.

(** X12. Annotation only inserts markers: with empty highlight markers the
    printed line is, in every mode, the tokens of the text joined by
    single spaces. *)
Theorem annotation_without_markers self (text mode : string) :
  WARNING_TEXT self = EmptyString →
  RESET_TEXT self = EmptyString →
  info_line self text mode = Py.join " " (Py.split text).
Proof.
  intros Hw Hr. rewrite Annotation.info_line_map. f_equal.
  rewrite <- (map_id (Py.split text)) at 2. apply map_ext. intros word.
  unfold annotate_token.
  generalize (FORBIDDEN_WORDS self) as forbiddens.
  induction forbiddens as [|forbidden rest IH]; [reflexivity|].
  cbn [highlight]. rewrite Hw, Hr, !PyFacts.app_nil_l, !PyFacts.app_nil_r.
  destruct (Py.str_in forbidden (Py.lower word)); [|exact IH].
  destruct ((Py.lower word =? Py.lower forbidden)%string
            && (mode =? "full")%string); [reflexivity|].
  destruct (mode =? "partial")%string; [|exact IH].
  by rewrite PyMore.replace_same.
Qed.

(** X13. In Substring mode, a lowercase token in which a trigger word
    occurs is printed with a marked trigger inside: the first word of
    the vocabulary that occurs in it, when that word is not empty,
    between the highlight markers. *)
Theorem substring_token_is_marked self (word forbidden : string) :
  Py.lower word = word →
  List.find (λ forbidden, Py.str_in forbidden (Py.lower word))
            (FORBIDDEN_WORDS self)
  = Some forbidden →
  forbidden ≠ EmptyString →
  Py.str_in (wrapped self forbidden) (annotate_token self "partial" word)
  = true.
Proof.
  intros Hlower Hfind Hne. unfold annotate_token.
  rewrite highlight_partial, Hfind.
  apply PyMore.str_in_replace; [done|].
  apply find_some in Hfind as [_ Hin]. by rewrite Hlower in Hin.
Qed.

End WithWorld.

Lemma detected_token_is_highlighted_witness :
  ("left" ∈ FORBIDDEN_WORDS Main.monitor_left_right
   ∧ Py.lower "left" = "left"
   ∧ Py.is_token "left" = true
   ∧ detects "full" (Py.lower "Turn LEFT now") "left" = true)
  ∧ ∃ before after,
      info_line Main.monitor_left_right (Py.lower "Turn LEFT now") "full"
      = Py.join " " (before ++ wrapped Main.monitor_left_right "left"
                              :: after).
Proof.
  assert (Hin : "left" ∈ FORBIDDEN_WORDS Main.monitor_left_right)
    by (vm_compute; constructor).
  split; [by repeat split|].
  exact (detected_token_is_highlighted Main.monitor_left_right
           "Turn LEFT now" "left" Hin eq_refl eq_refl eq_refl).
Defined.

Lemma annotation_without_markers_witness :
  let plain :=
    SpeechMonitor (World:=Main.Keyboard) "model" ["run"; "left"]
                  16000%N 4096%N EmptyString EmptyString in
  (WARNING_TEXT plain = EmptyString ∧ RESET_TEXT plain = EmptyString)
  ∧ info_line plain "i am  running left" "partial" = "i am running left".
Proof.
  intros plain. split; [by split|].
  exact (annotation_without_markers plain "i am  running left" "partial"
           eq_refl eq_refl).
Defined.

(** The example of Substring mode: with "run" in the vocabulary, the
    token "running" is printed with "run" between the markers. *)
Lemma substring_token_is_marked_witness :
  (Py.lower "running" = "running"
   ∧ List.find (λ forbidden, Py.str_in forbidden (Py.lower "running"))
               (FORBIDDEN_WORDS Main.monitor)
     = Some "run"
   ∧ "run" ≠ EmptyString)
  ∧ Py.str_in (wrapped Main.monitor "run")
              (annotate_token Main.monitor "partial" "running")
    = true.
Proof.
  assert (Hne : "run" ≠ EmptyString) by discriminate.
  assert (Hfind : List.find
                    (λ forbidden, Py.str_in forbidden (Py.lower "running"))
                    (FORBIDDEN_WORDS Main.monitor)
                  = Some "run") by (vm_compute; reflexivity).
  split; [by repeat split|].
  exact (substring_token_is_marked Main.monitor "running" "run"
           eq_refl Hfind Hne).
Defined.

End Highlight.



(** ** How a run of the monitor ends *)
Module Exit.

Import Monitor DetectionFacts Props.
Local Open Scope monitor_scope.

Section WithWorld.

Context {World : Type}.
Implicit Types (self : Self World) (env : Env World).

(** The detection loop does not look at the trace nor at the attributes
    other than the callbacks: from two states with the same callbacks and
    the same world it ends the same way. *)
Lemma detection_loop_shift (mode cl : string) (words : list string) :
  ∀ (nd : gset string) self self2 (w : World) (tr tr2 : list event),
    detected_words self = ∅ →
    detected_words self2 = ∅ →
    callbacks self2 = callbacks self →
    ∃ w' d r,
      detection_loop cl mode words nd (self, mkEnv w tr)
      = ((self, mkEnv w' (tr ++ d)), r)
      ∧ detection_loop cl mode words nd (self2, mkEnv w tr2)
        = ((self2, mkEnv w' (tr2 ++ d)), r).
Proof.
  induction words as [|word words IH];
    intros nd self self2 w tr tr2 Hdw Hdw2 Hcb.
  - exists w, [], (Returned nd). by rewrite !app_nil_r.
  - cbn [detection_loop]. unfold bind.
    rewrite !detection_body_spec by done. unfold body_outcome.
    rewrite Hcb. cbn [world trace].
    destruct (detects mode cl word); [|by apply IH].
    destruct (callbacks self !! word) as [callback|]; [|by apply IH].
    destruct (snd (callback w)) as [e|].
    + by exists (fst (callback w)), [EvCall word], (Raised e).
    + destruct (IH (nd ∪ {[word]}) self self2 (fst (callback w))
                  (tr ++ [EvCall word]) (tr2 ++ [EvCall word])
                  Hdw Hdw2 Hcb) as (w' & d & r & -> & ->).
      exists w', ([EvCall word] ++ d), r. by rewrite !app_assoc.
Qed.

(** The pass, from its loop. *)
Lemma process_unfold (text mode : string) self env :
  _process_partial_result_and_full_result text mode (self, env)
  = match
      detection_loop (Py.lower text) mode (FORBIDDEN_WORDS self) ∅
                     (set_detected_words ∅ self, env)
    with
    | (st1, Returned nd) =>
        ((if bool_decide (nd = ∅) then fst st1
          else set_detected_words (detected_words (fst st1) ∪ nd) (fst st1),
          snd st1),
         Returned (Py.lower text))
    | (st1, Raised e) => (st1, Raised e)
    end.
Proof.
  unfold _process_partial_result_and_full_result.
  unfold bind at 1, modify_self at 1. cbn [fst snd].
  unfold bind at 1, get_self at 1. cbn [fst snd].
  unfold bind at 1.
  change (FORBIDDEN_WORDS (set_detected_words ∅ self))
    with (FORBIDDEN_WORDS self).
  destruct (detection_loop _ _ _ _ _) as [[self1 env1] [nd|e]]; [|done].
  unfold bind, modify_self, ret. by destruct (bool_decide _).
Qed.

(** The outcome of a pass depends on the vocabulary, the callbacks and
    the world only. *)
Lemma pass_outcome_shift (text mode : string) self env self2 env2 :
  callbacks self2 = callbacks self →
  FORBIDDEN_WORDS self2 = FORBIDDEN_WORDS self →
  world env2 = world env →
  result (_process_partial_result_and_full_result text mode) (self2, env2)
  = result (_process_partial_result_and_full_result text mode) (self, env).
Proof.
  intros Hcb Hfw Hw. destruct env as [w tr], env2 as [w2 tr2].
  cbn [world] in Hw. subst w2.
  unfold result. rewrite !process_unfold, Hfw.
  match goal with
  | |- context [detection_loop ?cl ?m ?ws ?nd (?s1, mkEnv w tr)] =>
      match goal with
      | |- context [detection_loop _ _ _ _ (?s2, mkEnv w tr2)] =>
          destruct (detection_loop_shift m cl ws nd s1 s2 w tr tr2
                      eq_refl eq_refl Hcb) as (w' & d & r & H1 & H2)
      end
  end.
  rewrite H1, H2. by destruct r.
Qed.

(** X14. In a mode the monitor accepts, once it holds its resources,
    every run of [monitor_speech] ends by an exception [e] leaving the
    loop; the events of the run end with what the [except] clause for
    [e] prints and then with one release of the stream and of the
    device, and nothing is released before; the call returns when [e]
    is a [KeyboardInterrupt] or an [Exception] and raises [e]
    otherwise. *)
Theorem every_loop_exit_cleans_up self env (mode : string)
    (ib : init_behaviour) (chunks : list chunk) (stop : exn) :
  mode = "full" ∨ mode = "partial" →
  ready self = true ∨ ib = InitOk →
  let run := monitor_speech mode ib chunks stop in
  ∃ e evs,
    result run (self, env) = (if caught e then Returned tt else Raised e)
    ∧ trace (snd (exec run (self, env)))
      = trace env ++ evs ++ handler_events e ++ release_events
    ∧ Forall (λ ev, is_release ev = false) evs.
Proof.
  intros Hmode Hstart run. subst run. unfold result, exec.
  destruct (Loop.monitor_speech_valid self env mode ib chunks stop
              Hmode Hstart)
    as (e & dw & al & evs & w' & -> & Hevs & _).
  by exists e, evs.
Qed.

(** X15. When moreover no callback raises, the exception that ends the
    run is the one of the last [stream.read]: on Ctrl+C the monitor
    prints "Stopping..." and returns, on a read error it prints the error
    and returns, and any other exception is raised again, in each case
    after the release. *)
Theorem monitor_exit_status self env (mode : string)
    (ib : init_behaviour) (chunks : list chunk) (stop : exn) :
  mode = "full" ∨ mode = "partial" →
  ready self = true ∨ ib = InitOk →
  callbacks_return self →
  let run := monitor_speech mode ib chunks stop in
  result run (self, env) = (if caught stop then Returned tt else Raised stop)
  ∧ ∃ evs,
      trace (snd (exec run (self, env)))
      = trace env ++ evs ++ handler_events stop ++ release_events
      ∧ Forall (λ ev, is_release ev = false) evs.
Proof.
  intros Hmode Hstart Hcb run. subst run. unfold result, exec.
  destruct (Loop.monitor_speech_valid self env mode ib chunks stop
              Hmode Hstart)
    as (e & dw & al & evs & w' & -> & Hevs & Hret).
  destruct (Hret Hcb) as [-> _]. split; [done|]. by exists evs.
Qed.

Lemma cleanup_ready self env :
  ready self = true →
  cleanup (self, env)
  = ((self, mkEnv (world env) (trace env ++ release_events)), Returned tt).
Proof.
  intros Hready. unfold ready in Hready.
  apply andb_true_iff in Hready as [[_ Hs]%andb_true_iff Hm].
  unfold cleanup, bind, get_self, emit, ret. cbn [fst snd].
  rewrite Hs, Hm. cbn [fst snd world trace]. by rewrite <- !app_assoc.
Qed.

Lemma callback_error_run self env (mode : string)
    (ib : init_behaviour) (text : string) (rest : list chunk)
    (stop e : exn) :
  mode = "full" ∨ mode = "partial" →
  ready self = true ∨ ib = InitOk →
  is_Exception e = true →
  result (_process_partial_result_and_full_result text mode) (self, env)
  = Raised e →
  ∃ calls w',
    monitor_speech mode ib (Final (Some text) :: rest) stop (self, env)
    = ((set_detected_words ∅ (if ready self then self else acquire self),
        mkEnv w'
          (trace env
           ++ (if ready self then [] else init_events)
           ++ [EvPrint
                 "Listening for forbidden words -> mode... (Press Ctrl+C to stop)";
               EvRead]
           ++ map EvCall calls
           ++ [EvPrint ("Error during processing: " +:+ str_exn e)]
           ++ release_events)),
       Returned tt).
Proof.
  intros Hmode Hstart Hexc Hpass. unfold result in Hpass.
  destruct (Loop.monitor_speech_start self env mode ib
              (Final (Some text) :: rest) stop Hstart)
    as (self0 & env0 & Hself0 & Henv0 & Hready0 & ->).
  unfold bind at 1. rewrite Loop.mode_test_valid by done.
  unfold ret at 1. unfold bind at 1, print at 1, emit at 1.
  cbn [fst snd]. unfold try_finally, try_except. cbn [loop].
  unfold bind at 1, emit at 1. cbn [fst snd].
  unfold bind at 1. rewrite Loop.loop_body_text by done.
  unfold bind at 1. cbn [world trace].
  assert (Hcb0 : callbacks self0 = callbacks self)
    by (subst self0; by destruct (ready self)).
  assert (Hfw0 : FORBIDDEN_WORDS self0 = FORBIDDEN_WORDS self)
    by (subst self0; by destruct (ready self)).
  match goal with
  | |- context [_process_partial_result_and_full_result text mode
                  (self0, ?env2)] =>
      destruct (process_cases text mode self0 env2) as (st1 & r1 & Heq);
      pose proof (pass_outcome_shift text mode self env self0 env2
                    Hcb0 Hfw0 ltac:(by subst env0)) as Hshift
  end.
  unfold result in Hshift. rewrite Heq, Hpass in Hshift.
  cbn [snd] in Hshift. subst r1.
  rewrite Heq. apply process_spec in Heq
    as (Hself1 & pre & w & post & callback & w0 & _ & _ & _ & _ & Htr).
  destruct st1 as [self1 env1]. cbn [fst snd trace] in *.
  assert (Hready1 : ready self1 = true) by (by subst self1).
  exists (called self0 mode (Py.lower text) pre ++ [w]), (world env1).
  destruct e as [|msg|msg|msg]; try discriminate Hexc;
    cbn [is_Exception str_exn]; unfold print, emit; cbn [fst snd];
    rewrite cleanup_ready by done; cbn [fst snd trace world];
    rewrite Htr; subst self1 self0 env0; cbn [trace];
    rewrite map_app; cbn [map]; by rewrite <- !app_assoc.
Qed.

(** X16. An [Exception] raised by a callback ends the run: when the
    pass on the text of the first finalized result raises [e], the
    monitor prints "Error during processing: ..." with the message of
    [e], releases the stream and the device and returns; the text is not
    added to the History, and the stream is not read again. *)
Theorem callback_error_ends_run self env (mode : string)
    (ib : init_behaviour) (text : string) (rest : list chunk)
    (stop e : exn) :
  mode = "full" ∨ mode = "partial" →
  ready self = true ∨ ib = InitOk →
  is_Exception e = true →
  result (_process_partial_result_and_full_result text mode) (self, env)
  = Raised e →
  let run := monitor_speech mode ib (Final (Some text) :: rest) stop in
  result run (self, env) = Returned tt
  ∧ audio_list (fst (exec run (self, env))) = audio_list self
  ∧ ∃ calls,
      trace (snd (exec run (self, env)))
      = trace env
        ++ (if ready self then [] else init_events)
        ++ [EvPrint
              "Listening for forbidden words -> mode... (Press Ctrl+C to stop)";
            EvRead]
        ++ map EvCall calls
        ++ [EvPrint ("Error during processing: " +:+ str_exn e)]
        ++ release_events.
Proof.
  intros Hmode Hstart Hexc Hpass run. subst run. unfold result, exec.
  destruct (callback_error_run self env mode ib text rest stop e
              Hmode Hstart Hexc Hpass) as (calls & w' & ->).
  cbn [fst snd trace]. split; [done|].
  split; [by destruct (ready self)|]. by exists calls.
Qed.

Lemma initialize_fails (ib : init_behaviour) (e : exn) self env :
  init_error ib = Some e →
  ∃ self',
    initialize_audio_stream ib (self, env)
    = ((self',
        mkEnv (world env)
              (trace env ++ acquired_before ib ++ init_message e)),
       Raised e)
    ∧ audio_list self' = audio_list self
    ∧ stream self' = stream self.
Proof.
  intros Hib.
  destruct ib as [|e0|e0|e0|e0]; try discriminate Hib;
    injection Hib as ->; destruct e;
    unfold initialize_audio_stream, try_except, bind, emit, modify_self,
      print, raise; cbn; eexists;
    (split; [rewrite <- ?app_assoc, ?app_nil_r; destruct env; reflexivity|]);
    done.
Qed.

(** X17. When the monitor does not hold its resources and their
    acquisition fails, [monitor_speech] raises the error of the
    acquisition, whatever the mode (also a mode it would reject): the
    calls that returned before the failure are not undone (nothing is
    released), the message "Initialization failed: ..." is printed when
    the error is an [Exception], the stream is not read, and the History
    and [self.stream] are as they were. *)
Theorem failed_acquisition_propagates self env (mode : string)
    (ib : init_behaviour) (chunks : list chunk) (stop e : exn) :
  ready self = false →
  init_error ib = Some e →
  let run := monitor_speech mode ib chunks stop in
  result run (self, env) = Raised e
  ∧ trace (snd (exec run (self, env)))
    = trace env ++ acquired_before ib ++ init_message e
  ∧ List.filter is_release (acquired_before ib ++ init_message e) = []
  ∧ audio_list (fst (exec run (self, env))) = audio_list self
  ∧ stream (fst (exec run (self, env))) = stream self.
Proof.
  intros Hready Hib run. subst run.
  destruct (initialize_fails ib e self env Hib)
    as (self' & Hinit & Hlist & Hstream).
  assert (Hrun : monitor_speech mode ib chunks stop (self, env)
                 = ((self',
                     mkEnv (world env)
                       (trace env ++ acquired_before ib ++ init_message e)),
                    Raised e)).
  { unfold monitor_speech. unfold bind at 1, get_self at 1. cbn [fst snd].
    fold (ready self). rewrite Hready. cbn [negb].
    unfold bind at 1. by rewrite Hinit. }
  unfold result, exec. rewrite Hrun. cbn [fst snd trace].
  repeat split; try done.
  destruct ib; try discriminate Hib; unfold init_message;
    by destruct (is_Exception e).
Qed.

Lemma history_lines_lower (chunks : list chunk) :
  ∀ cl,
    Py.lower cl = cl →
    Forall (λ line, Py.lower line = line) (history_lines cl chunks).
Proof.
  induction chunks as [|[|[text|]] chunks IH]; intros cl Hcl; cbn.
  - constructor.
  - by apply IH.
  - constructor; [apply PyMore.lower_idemp|]. apply IH, PyMore.lower_idemp.
  - constructor; [done|]. by apply IH.
Qed.

(** X18. The lines a run adds to the History are lowercase: in a mode
    the monitor accepts, once it holds its resources and when no
    callback raises, every line appended to [audio_list] is its own
    lowercase form. *)
Theorem history_lines_are_lowercase self env (mode : string)
    (ib : init_behaviour) (chunks : list chunk) (stop : exn) :
  mode = "full" ∨ mode = "partial" →
  ready self = true ∨ ib = InitOk →
  callbacks_return self →
  ∃ lines,
    audio_list (fst (exec (monitor_speech mode ib chunks stop) (self, env)))
    = audio_list self ++ lines
    ∧ Forall (λ line, Py.lower line = line) lines.
Proof.
  intros Hmode Hstart Hcb. unfold exec.
  destruct (Loop.monitor_speech_valid self env mode ib chunks stop
              Hmode Hstart)
    as (e & dw & al & evs & w' & -> & _ & Hret).
  destruct (Hret Hcb) as [_ ->].
  exists (history_lines EmptyString chunks). split; [done|].
  by apply history_lines_lower.
Qed.

End WithWorld.

Lemma every_loop_exit_cleans_up_witness :
  let run :=
    monitor_speech "full" InitOk [NoResult; Final (Some "attack")]
                   KeyboardInterrupt in
  (("full" = "full" ∨ "full" = "partial")
   ∧ (ready Main.monitor_failing_attack = true ∨ InitOk = InitOk))
  ∧ ∃ e evs,
      result run (Main.monitor_failing_attack, Main.env0)
      = (if caught e then Returned tt else Raised e)
      ∧ trace (snd (exec run (Main.monitor_failing_attack, Main.env0)))
        = trace Main.env0 ++ evs ++ handler_events e ++ release_events
      ∧ Forall (λ ev, is_release ev = false) evs.
Proof.
  intros run.
  assert (Hmode : "full" = "full" ∨ "full" = "partial")
    by (left; reflexivity).
  assert (Hstart : ready Main.monitor_failing_attack = true
                   ∨ InitOk = InitOk) by (right; reflexivity).
  split; [by split|].
  exact (every_loop_exit_cleans_up Main.monitor_failing_attack Main.env0
           "full" InitOk [NoResult; Final (Some "attack")]
           KeyboardInterrupt Hmode Hstart).
Defined.

Lemma monitor_exit_status_witness :
  let run :=
    monitor_speech "partial" InitOk [Final (Some "lock on")]
                   (BaseException "SystemExit") in
  (("partial" = "full" ∨ "partial" = "partial")
   ∧ (ready Main.monitor = true ∨ InitOk = InitOk)
   ∧ callbacks_return Main.monitor)
  ∧ result run (Main.monitor, Main.env0)
    = Raised (BaseException "SystemExit")
  ∧ ∃ evs,
      trace (snd (exec run (Main.monitor, Main.env0)))
      = trace Main.env0 ++ evs
        ++ handler_events (BaseException "SystemExit") ++ release_events
      ∧ Forall (λ ev, is_release ev = false) evs.
Proof.
  intros run.
  assert (Hmode : "partial" = "full" ∨ "partial" = "partial")
    by (right; reflexivity).
  assert (Hstart : ready Main.monitor = true ∨ InitOk = InitOk)
    by (right; reflexivity).
  split; [by auto using Loop.main_callbacks_return|].
  exact (monitor_exit_status Main.monitor Main.env0 "partial" InitOk
           [Final (Some "lock on")] (BaseException "SystemExit")
           Hmode Hstart Loop.main_callbacks_return).
Defined.

Lemma callback_error_ends_run_witness :
  let run :=
    monitor_speech "full" InitOk
      [Final (Some "Attack now"); Final (Some "drink")] KeyboardInterrupt in
  (("full" = "full" ∨ "full" = "partial")
   ∧ (ready Main.monitor_failing_attack = true ∨ InitOk = InitOk)
   ∧ is_Exception (Exception "boom") = true
   ∧ result (_process_partial_result_and_full_result "Attack now" "full")
            (Main.monitor_failing_attack, Main.env0)
     = Raised (Exception "boom"))
  ∧ result run (Main.monitor_failing_attack, Main.env0) = Returned tt
  ∧ audio_list (fst (exec run (Main.monitor_failing_attack, Main.env0)))
    = []
  ∧ ∃ calls,
      trace (snd (exec run (Main.monitor_failing_attack, Main.env0)))
      = [EvModel; EvRecognizer; EvPyAudio; EvOpen;
         EvPrint
           "Listening for forbidden words -> mode... (Press Ctrl+C to stop)";
         EvRead]
        ++ map EvCall calls
        ++ [EvPrint "Error during processing: boom";
            EvStopStream; EvClose; EvTerminate].
Proof.
  intros run.
  assert (Hmode : "full" = "full" ∨ "full" = "partial")
    by (left; reflexivity).
  assert (Hstart : ready Main.monitor_failing_attack = true
                   ∨ InitOk = InitOk) by (right; reflexivity).
  assert (Hpass :
            result (_process_partial_result_and_full_result "Attack now"
                      "full") (Main.monitor_failing_attack, Main.env0)
            = Raised (Exception "boom")) by (vm_compute; reflexivity).
  split; [by repeat split|].
  exact (callback_error_ends_run Main.monitor_failing_attack Main.env0
           "full" InitOk "Attack now" [Final (Some "drink")]
           KeyboardInterrupt (Exception "boom") Hmode Hstart eq_refl Hpass).
Defined.

Lemma failed_acquisition_propagates_witness :
  let run :=
    monitor_speech "strict" (OpenFails (Exception "Invalid input device"))
                   [Final (Some "left")] KeyboardInterrupt in
  (ready Main.monitor = false
   ∧ init_error (OpenFails (Exception "Invalid input device"))
     = Some (Exception "Invalid input device"))
  ∧ result run (Main.monitor, Main.env0)
    = Raised (Exception "Invalid input device")
  ∧ trace (snd (exec run (Main.monitor, Main.env0)))
    = [EvModel; EvRecognizer; EvPyAudio;
       EvPrint "Initialization failed: Invalid input device"]
  ∧ List.filter is_release
      (acquired_before (OpenFails (Exception "Invalid input device"))
       ++ init_message (Exception "Invalid input device"))
    = []
  ∧ audio_list (fst (exec run (Main.monitor, Main.env0))) = []
  ∧ stream (fst (exec run (Main.monitor, Main.env0))) = None.
Proof.
  intros run. split; [by split|].
  exact (failed_acquisition_propagates Main.monitor Main.env0 "strict"
           (OpenFails (Exception "Invalid input device"))
           [Final (Some "left")] KeyboardInterrupt
           (Exception "Invalid input device") eq_refl eq_refl).
Defined.

Lemma history_lines_are_lowercase_witness :
  let run :=
    monitor_speech "full" InitOk
      [Final (Some "Go LEFT"); Final None; Final (Some "STOP")]
      KeyboardInterrupt in
  (("full" = "full" ∨ "full" = "partial")
   ∧ (ready Main.monitor = true ∨ InitOk = InitOk)
   ∧ callbacks_return Main.monitor)
  ∧ ∃ lines,
      audio_list (fst (exec run (Main.monitor, Main.env0)))
      = audio_list Main.monitor ++ lines
      ∧ Forall (λ line, Py.lower line = line) lines.
Proof.
  intros run.
  assert (Hmode : "full" = "full" ∨ "full" = "partial")
    by (left; reflexivity).
  assert (Hstart : ready Main.monitor = true ∨ InitOk = InitOk)
    by (right; reflexivity).
  split; [by auto using Loop.main_callbacks_return|].
  exact (history_lines_are_lowercase Main.monitor Main.env0 "full" InitOk
           [Final (Some "Go LEFT"); Final None; Final (Some "STOP")]
           KeyboardInterrupt Hmode Hstart Loop.main_callbacks_return).
Defined.

End Exit.
